(** * F1 insight server: resolution pipeline and insight handlers

    A shallow embedding of the resolution helpers of [src/final.js]
    ([filterByMonth], [mapSessionType], [normalizeString],
    [fetchAndBuildLocationMap], [getSessionKey], [resolveDriverNumber],
    [pitstops_summary]) and of the handlers [race_control_summary] and
    [position_change_summary] of the strict race-control server.

    Conventions of the embedding.
    - JavaScript strings are [string]s of 7-bit ASCII characters: case
      mapping acts on the letters a-z / A-Z only, and the white space
      class ([\s], [trim]) is TAB, LF, VT, FF, CR and SPACE.
    - Numbers that the code only compares, adds and prints are integers
      ([N] for car numbers and years, [Z] for laps and for instants in
      milliseconds since the epoch).  A lap duration is carried in
      milliseconds, i.e. as the value of [lap_duration * 1000].
    - A JSON field that may be [null] is an [option]; JavaScript truthiness
      is written out where the code tests it.
    - The answers of the upstream API are arguments of the functions; a
      request that fails is a [None] answer where the code catches it. *)

From Stdlib Require Import ZArith NArith List Bool Ascii String Lia.
From Stdlib Require Import Sorted Permutation DecimalString.
From stdpp Require Import gmap strings.

Import ListNotations.
Local Open Scope string_scope.
Local Open Scope bool_scope.

(** ** Characters and strings *)

Module JsString.

Definition code (c : ascii) : N := N_of_ascii c.

Definition between (lo hi : N) (c : ascii) : bool :=
  N.leb lo (code c) && N.leb (code c) hi.

Definition is_upper : ascii -> bool := between 65 90.
Definition is_lower : ascii -> bool := between 97 122.
Definition is_digit : ascii -> bool := between 48 57.

(** The class [\s], which is also what [trim] removes. *)
Definition is_space (c : ascii) : bool :=
  between 9 13 c || N.eqb (code c) 32.

(** The class [\w]. *)
Definition is_word (c : ascii) : bool :=
  is_upper c || is_lower c || is_digit c || N.eqb (code c) 95.

(** The case mappings of [toUpperCase] and [toLowerCase] on the ASCII
    range; a character outside of it is left as it is, so what is said
    about the case of letters is said of ASCII text. *)
Definition upper_char (c : ascii) : ascii :=
  if is_lower c then ascii_of_N (code c - 32) else c.

Definition lower_char (c : ascii) : ascii :=
  if is_upper c then ascii_of_N (code c + 32) else c.

Fixpoint map_chars (f : ascii -> ascii) (s : string) : string :=
  match s with
  | EmptyString => EmptyString
  | String c r => String (f c) (map_chars f r)
  end.

Fixpoint filter_chars (p : ascii -> bool) (s : string) : string :=
  match s with
  | EmptyString => EmptyString
  | String c r => if p c then String c (filter_chars p r) else filter_chars p r
  end.

Fixpoint all_chars (p : ascii -> bool) (s : string) : bool :=
  match s with
  | EmptyString => true
  | String c r => p c && all_chars p r
  end.

Definition toUpperCase : string -> string := map_chars upper_char.
Definition toLowerCase : string -> string := map_chars lower_char.

Fixpoint trimStart (s : string) : string :=
  match s with
  | EmptyString => EmptyString
  | String c r => if is_space c then trimStart r else s
  end.

Fixpoint trimEnd (s : string) : string :=
  match s with
  | EmptyString => EmptyString
  | String c r =>
      match trimEnd r with
      | EmptyString => if is_space c then EmptyString else String c EmptyString
      | t => String c t
      end
  end.

Definition trim (s : string) : string := trimEnd (trimStart s).

Definition is_empty (s : string) : bool :=
  match s with EmptyString => true | _ => false end.

(** [startsWith s p]: [p] is a prefix of [s]; on a match the rest of [s]
    is returned. *)
Fixpoint strip_prefix (p s : string) : option string :=
  match p, s with
  | EmptyString, _ => Some s
  | String a p', String b s' => if Ascii.eqb a b then strip_prefix p' s' else None
  | String _ _, EmptyString => None
  end.

(** [s.includes(p)]. *)
Fixpoint includes (s p : string) : bool :=
  match strip_prefix p s with
  | Some _ => true
  | None =>
      match s with
      | EmptyString => false
      | String _ r => includes r p
      end
  end.

(** [s.replace(p, r)] for a string pattern: the first occurrence only. *)
Fixpoint replace_first (p r s : string) : string :=
  match strip_prefix p s with
  | Some rest => r +:+ rest
  | None =>
      match s with
      | EmptyString => EmptyString
      | String c t => String c (replace_first p r t)
      end
  end.

(** [s.split(/\s+/)[0]]: what precedes the first run of white space. *)
Fixpoint first_token (s : string) : string :=
  match s with
  | EmptyString => EmptyString
  | String c r => if is_space c then EmptyString else String c (first_token r)
  end.

(** [n.toString()] and [`${n}`] for a non-negative integer. *)
Definition of_N (n : N) : string := NilZero.string_of_uint (N.to_uint n).

(** Truthiness of a string that may be [null]. *)
Definition truthy (o : option string) : bool :=
  match o with
  | Some s => negb (is_empty s)
  | None => false
  end.

End JsString.

Import JsString.

(** ** Core helpers of [src/final.js] *)

(** [normalizeString]:
    [str ? str.replace(/[_\-]/g, " ").toUpperCase().replace(/[^A-Z\s]/g, "").trim() : ""]. *)

Definition dash_to_space (c : ascii) : ascii :=
  if N.eqb (code c) 95 || N.eqb (code c) 45 then " "%char else c.

Definition keep_char (c : ascii) : bool := is_upper c || is_space c.

Definition normalizeString (str : option string) : string :=
  match str with
  | None => ""
  | Some s =>
      if is_empty s then ""
      else trim (filter_chars keep_char (toUpperCase (map_chars dash_to_space s)))
  end.

(** ** JavaScript values, objects and arrays *)

(** A scalar as it arrives in a query string or a JSON body. *)
Inductive js_scalar : Type :=
  | JNull
  | JStr (s : string)
  | JNum (n : N).

Definition scalar_truthy (v : js_scalar) : bool :=
  match v with
  | JNull => false
  | JStr s => negb (is_empty s)
  | JNum n => negb (N.eqb n 0)
  end.

Definition scalar_toString (v : js_scalar) : string :=
  match v with
  | JNull => "null"
  | JStr s => s
  | JNum n => of_N n
  end.

(** Truthiness of a number that may be [null]. *)
Definition N_truthy (o : option N) : bool :=
  match o with
  | Some n => negb (N.eqb n 0)
  | None => false
  end.

Definition Z_truthy (o : option Z) : bool :=
  match o with
  | Some n => negb (Z.eqb n 0)
  | None => false
  end.

(** The names every object literal inherits from [Object.prototype]. *)
Definition Object_prototype_keys : list string :=
  [ "constructor"; "__defineGetter__"; "__defineSetter__"; "hasOwnProperty";
    "__lookupGetter__"; "__lookupSetter__"; "isPrototypeOf";
    "propertyIsEnumerable"; "toString"; "valueOf"; "__proto__";
    "toLocaleString" ].

(** What [obj[key]] evaluates to, for an object literal [obj]: one of its
    own values, a member of [Object.prototype], or [undefined]. *)
Inductive property (V : Type) : Type :=
  | Own (v : V)
  | Inherited
  | Undefined.
Arguments Own {V} v.
Arguments Inherited {V}.
Arguments Undefined {V}.

Fixpoint own_get {V : Type} (obj : list (string * V)) (key : string) : option V :=
  match obj with
  | [] => None
  | (k, v) :: rest => if String.eqb k key then Some v else own_get rest key
  end.

Definition obj_get {V : Type} (obj : list (string * V)) (key : string) : property V :=
  match own_get obj key with
  | Some v => Own v
  | None =>
      if List.existsb (String.eqb key) Object_prototype_keys then Inherited
      else Undefined
  end.

(** [Array.prototype.sort] with the comparator [(a, b) => key(a) - key(b)]:
    ascending by [key], elements with equal keys keep their order. *)
Section Sorting.
Context {A : Type} (key : A -> Z).

Fixpoint insert_by (x : A) (l : list A) : list A :=
  match l with
  | [] => [x]
  | y :: r => if Z.leb (key x) (key y) then x :: l else y :: insert_by x r
  end.

Fixpoint sort_by (l : list A) : list A :=
  match l with
  | [] => []
  | x :: r => insert_by x (sort_by r)
  end.
(** The order that the sort establishes. *)
Definition ascending : list A -> Prop :=
  StronglySorted (fun a b => (key a <= key b)%Z).
End Sorting.

(** [arr[arr.length - 1]]. *)
Fixpoint last_item {A : Type} (l : list A) : option A :=
  match l with
  | [] => None
  | [x] => Some x
  | _ :: r => last_item r
  end.

(** [new Date(ms).getUTCMonth()], 0 for January: the civil month of the
    day that contains the instant [ms]. *)
Definition getUTCMonth (ms : Z) : Z :=
  let days := (ms / 86400000)%Z in
  let z := (days + 719468)%Z in
  let era := (z / 146097)%Z in
  let doe := (z - era * 146097)%Z in
  let yoe := ((doe - doe / 1460 + doe / 36524 - doe / 146096) / 365)%Z in
  let doy := (doe - (365 * yoe + yoe / 4 - yoe / 100))%Z in
  let mp := ((5 * doy + 2) / 153)%Z in
  if Z.ltb mp 10 then (mp + 2)%Z else (mp - 10)%Z.

(** ** Records of the upstream API *)

(** Records with a [date_start] field, parsed to milliseconds; [None] is a
    [null] or empty field. *)
Class HasDateStart (A : Type) := date_start : A -> option Z.

(** [new Date(x.date_start).getTime()]; [new Date(null)] is the epoch. *)
Definition start_ms {A : Type} `{HasDateStart A} (x : A) : Z :=
  match date_start x with
  | Some t => t
  | None => 0%Z
  end.

Module Session.
Record t : Type := mk
  { session_key : N;
    session_name : string;
    country_name : string;
    date_start : option Z }.
End Session.

#[export] Instance Session_date_start : HasDateStart Session.t := Session.date_start.

Module Meeting.
Record t : Type := mk
  { country_name : option string;
    location : option string;
    meeting_name : option string }.
End Meeting.

Module Driver.
Record t : Type := mk
  { driver_number : N;
    name_acronym : option string;
    last_name : option string;
    full_name : option string;
    position : option N }.
End Driver.

Module Lap.
Record t : Type := mk
  { driver_number : N;
    lap_number : Z;
    date_start : option Z;
    lap_duration : option Z }.
End Lap.

#[export] Instance Lap_date_start : HasDateStart Lap.t := Lap.date_start.

Module Message.
Record t : Type := mk
  { date : Z;
    lap_number : option Z;
    category : option string;
    flag : option string;
    message : option string;
    driver_number : option N }.
End Message.

Module Pit.
Record t : Type := mk
  { driver_number : N;
    lap_number : Z;
    pit_duration : option Z }.
End Pit.

Module Stint.
Record t : Type := mk
  { driver_number : N;
    lap_start : Z;
    lap_end : Z;
    compound : option string }.
End Stint.

Module SessionResult.
Record t : Type := mk
  { name_acronym : option string;
    team_name : option string;
    position : option Z;
    grid_position : option Z }.
End SessionResult.


(** ** Month filter and session type *)

Definition monthMap : list (string * Z) :=
  [ ("jan", 0); ("january", 0); ("01", 0); ("1", 0);
    ("feb", 1); ("february", 1); ("02", 1); ("2", 1);
    ("mar", 2); ("march", 2); ("03", 2); ("3", 2);
    ("apr", 3); ("april", 3); ("04", 3); ("4", 3);
    ("may", 4); ("05", 4); ("5", 4);
    ("jun", 5); ("june", 5); ("06", 5); ("6", 5);
    ("jul", 6); ("july", 6); ("07", 6); ("7", 6);
    ("aug", 7); ("august", 7); ("08", 7); ("8", 7);
    ("sep", 8); ("september", 8); ("09", 8); ("9", 8);
    ("oct", 9); ("october", 9); ("10", 9);
    ("nov", 10); ("november", 10); ("11", 10);
    ("dec", 11); ("december", 11); ("12", 11) ]%Z.

(** The key under which [filterByMonth] looks the month up. *)
Definition month_key (monthInput : js_scalar) : string :=
  trim (toLowerCase (scalar_toString monthInput)).

(** [filterByMonth(data, monthInput)].  [targetMonth] is the value of
    [monthMap[key]]; an inherited member of [Object.prototype] is not
    [undefined], and no month number is strictly equal to it. *)
Definition filterByMonth {A : Type} `{HasDateStart A}
    (data : list A) (monthInput : js_scalar) : list A :=
  if negb (scalar_truthy monthInput) then data
  else
    match obj_get monthMap (month_key monthInput) with
    | Undefined => data
    | Own targetMonth =>
        List.filter
          (fun item =>
             match date_start item with
             | Some t => Z.eqb (getUTCMonth t) targetMonth
             | None => false
             end)
          data
    | Inherited =>
        List.filter
          (fun item =>
             match date_start item with
             | Some _ => false
             | None => false
             end)
          data
    end.

Definition sessionTypeMap : list (string * string) :=
  [ ("R", "Race"); ("Q", "Qualifying"); ("FP1", "Practice 1");
    ("FP2", "Practice 2"); ("FP3", "Practice 3"); ("S", "Sprint");
    ("RACE", "Race"); ("QUALIFYING", "Qualifying") ].

(** [mapSessionType(type)].  The key is upper-cased, so it never names a
    member of [Object.prototype] (lemma [session_key_not_inherited]
    below): only the own properties of [map] can answer. *)
Definition mapSessionType (type : option string) : string :=
  match type with
  | None => "Race"
  | Some t =>
      if is_empty t then "Race"
      else
        match own_get sessionTypeMap (trim (toUpperCase t)) with
        | Some label => if is_empty label then "Race" else label
        | None => "Race"
        end
  end.

(** The session names of the upstream API. *)
Definition canonical_session_names : list string :=
  [ "Race"; "Qualifying"; "Practice 1"; "Practice 2"; "Practice 3"; "Sprint" ].

(** ** Location map *)

Definition default_aliases : list (string * string) :=
  [ ("ABU DHABI", "United Arab Emirates"); ("ABUDHABI", "United Arab Emirates");
    ("YAS MARINA", "United Arab Emirates"); ("YASMARINA", "United Arab Emirates");
    ("UAE", "United Arab Emirates");
    ("SILVERSTONE", "Great Britain"); ("BRITISH", "Great Britain"); ("UK", "Great Britain");
    ("SPA", "Belgium"); ("SPA FRANCORCHAMPS", "Belgium"); ("MONZA", "Italy");
    ("IMOLA", "Italy"); ("MONACO", "Monaco"); ("BAKU", "Azerbaijan");
    ("AZERBAIJAN", "Azerbaijan");
    ("COTA", "United States"); ("AUSTIN", "United States"); ("MIAMI", "United States");
    ("LAS VEGAS", "United States"); ("LASVEGAS", "United States");
    ("VEGAS", "United States"); ("USA", "United States"); ("US", "United States");
    ("MEXICO", "Mexico"); ("MEXICO CITY", "Mexico"); ("MEXICOCITY", "Mexico");
    ("INTERLAGOS", "Brazil"); ("SAO PAULO", "Brazil"); ("SAOPAULO", "Brazil");
    ("BRAZIL", "Brazil");
    ("SUZUKA", "Japan"); ("JAPAN", "Japan"); ("JEDDAH", "Saudi Arabia");
    ("SAUDI", "Saudi Arabia"); ("BAHRAIN", "Bahrain"); ("SAKHIR", "Bahrain");
    ("MELBOURNE", "Australia"); ("AUSTRALIA", "Australia"); ("MONTREAL", "Canada");
    ("CANADA", "Canada"); ("BARCELONA", "Spain"); ("SPAIN", "Spain");
    ("ZANDVOORT", "Netherlands"); ("DUTCH", "Netherlands"); ("HUNGARORING", "Hungary");
    ("HUNGARY", "Hungary");
    ("RED BULL RING", "Austria"); ("REDBULLRING", "Austria"); ("AUSTRIA", "Austria");
    ("SPIELBERG", "Austria");
    ("SINGAPORE", "Singapore"); ("MARINA BAY", "Singapore"); ("MARINABAY", "Singapore");
    ("QATAR", "Qatar"); ("LUSAIL", "Qatar"); ("CHINA", "China"); ("SHANGHAI", "China") ].

(** A [Map] from alias to country; a value is [None] when the meeting
    carried no country name. *)
Abbreviation location_map := (gmap string (option string)).

(** [meetingsCache]: one location map per season year. *)
Abbreviation meetings_cache := (gmap Z location_map).

(** [new Map(entries)]: the entries are set in order. *)
Definition Map_of (entries : list (string * string)) : location_map :=
  List.fold_left (fun m kv => <[fst kv := Some (snd kv)]> m) entries ∅.

(** The body of [response.data.forEach((m) => ...)]. *)
Definition register_meeting (map : location_map) (m : Meeting.t) : location_map :=
  let country := Meeting.country_name m in
  let map := <[normalizeString country := country]> map in
  let map :=
    if truthy (Meeting.location m)
    then <[normalizeString (Meeting.location m) := country]> map
    else map in
  match Meeting.meeting_name m with
  | Some name =>
      if is_empty name then map
      else
        let map := <[normalizeString (Some name) := country]> map in
        if is_empty (first_token name) then map
        else <[normalizeString (Some (first_token name)) := country]> map
  | None => map
  end.

(** [fetchAndBuildLocationMap(year)], given the cache and the answer of
    [/v1/meetings] for that year ([None]: the request failed or timed
    out).  Returns the map and the cache after the call. *)
Definition fetchAndBuildLocationMap (cache : meetings_cache) (year : Z)
    (response : option (list Meeting.t)) : location_map * meetings_cache :=
  match cache !! year with
  | Some cached => (cached, cache)
  | None =>
      let map := Map_of default_aliases in
      match response with
      | Some data =>
          if Nat.ltb 0 (List.length data)
          then
            let map := List.fold_left register_meeting data map in
            (map, <[year := map]> cache)
          else (map, cache)
      | None => (map, cache)
      end
  end.

(** [map.get(k)] as a condition. *)
Definition Map_get_truthy (map : location_map) (k : string) : option string :=
  match map !! k with
  | Some (Some country) => if is_empty country then None else Some country
  | _ => None
  end.

(** [resolveCountryFromHistory(fuzzyName)]: the maps of the current year
    and of the three years before it are searched in order. *)
Fixpoint resolve_in_years (meetings : Z -> option (list Meeting.t))
    (cache : meetings_cache) (normalized : string) (years : list Z)
    : option string * meetings_cache :=
  match years with
  | [] => (None, cache)
  | year :: rest =>
      let '(map, cache) := fetchAndBuildLocationMap cache year (meetings year) in
      match Map_get_truthy map normalized with
      | Some resolved => (Some resolved, cache)
      | None =>
          match Map_get_truthy map (first_token normalized) with
          | Some resolved => (Some resolved, cache)
          | None => resolve_in_years meetings cache normalized rest
          end
      end
  end.

Definition resolveCountryFromHistory (meetings : Z -> option (list Meeting.t))
    (currentYear : Z) (cache : meetings_cache) (fuzzyName : option string)
    : option string * meetings_cache :=
  resolve_in_years meetings cache (normalizeString fuzzyName)
    [currentYear; currentYear - 1; currentYear - 2; currentYear - 3]%Z.

(** ** Session resolver *)

(** The answer of an upstream request: the data, or the text of the
    error the request raised. *)
Inductive answer (A : Type) : Type :=
  | Failed (text : string)
  | Data (d : A).
Arguments Failed {A} text.
Arguments Data {A} d.

(** The outcome of a function that may [throw new Error(msg)]. *)
Inductive result (A : Type) : Type :=
  | Ok (a : A)
  | Err (msg : string).
Arguments Ok {A} a.
Arguments Err {A} msg.

Definition not_found_message (country openF1Type : string) (year : N) : string :=
  "Session not found for '" +:+ country +:+ "' and '" +:+ openF1Type
    +:+ "' in year " +:+ of_N year +:+ ".".

Definition no_month_message (month : js_scalar) (country : string) (year : N) : string :=
  "No sessions found in " +:+ scalar_toString month +:+ " for " +:+ country
    +:+ " in year " +:+ of_N year +:+ ".".

(** The [try] block of [getSessionKey], once the country to query is
    known; [response] answers the query for [year], [countryToQuery] and
    the mapped session type. *)
Definition locate_session (year : N) (countryToQuery : string)
    (sessionType : option string) (month : js_scalar)
    (response : string -> answer (list Session.t)) : result N :=
  let openF1Type := mapSessionType sessionType in
  match response openF1Type with
  | Failed text => Err text
  | Data sessions =>
      if Nat.eqb (List.length sessions) 0
      then Err (not_found_message countryToQuery openF1Type year)
      else
        let sessions :=
          if scalar_truthy month then filterByMonth sessions month else sessions in
        if scalar_truthy month && Nat.eqb (List.length sessions) 0
        then Err (no_month_message month countryToQuery year)
        else
          match last_item (sort_by start_ms sessions) with
          | Some s => Ok (Session.session_key s)
          | None => Err "Cannot read properties of undefined (reading 'session_key')"
          end
  end.

(** The upstream API as [getSessionKey] sees it. *)
Record Upstream : Type :=
  { meetings_of : Z -> option (list Meeting.t);
    sessions_of : N -> string -> string -> answer (list Session.t) }.

(** [getSessionKey(year, location, sessionType, token, month)]. *)
Definition getSessionKey (api : Upstream) (currentYear : Z) (cache : meetings_cache)
    (year : N) (location : string) (sessionType : option string)
    (month : js_scalar) : result N * meetings_cache :=
  let '(resolved, cache) :=
    resolveCountryFromHistory (meetings_of api) currentYear cache (Some location) in
  let countryToQuery :=
    match resolved with
    | Some country => country
    | None => location
    end in
  match locate_session year countryToQuery sessionType month
          (sessions_of api year countryToQuery) with
  | Ok key => (Ok key, cache)
  | Err msg => (Err ("Failed to locate session: " +:+ msg), cache)
  end.

(** ** Driver resolver *)

(** The predicate of [drivers.find(d => ...)]. *)
Definition driver_matches (needle : string) (d : Driver.t) : bool :=
  match Driver.name_acronym d with
  | Some a => negb (is_empty a) && String.eqb (toLowerCase a) needle
  | None => false
  end
  || (negb (N.eqb (Driver.driver_number d) 0)
      && String.eqb (of_N (Driver.driver_number d)) needle)
  || match Driver.last_name d with
     | Some l => negb (is_empty l) && includes (toLowerCase l) needle
     | None => false
     end
  || match Driver.full_name d with
     | Some f => negb (is_empty f) && includes (toLowerCase f) needle
     | None => false
     end.

Definition driver_needle (driverInput : js_scalar) : string :=
  trim (toLowerCase (scalar_toString driverInput)).

(** [resolveDriverNumber(sessionKey, driverInput)], given the roster of
    the session. *)
Definition resolveDriverNumber (drivers : list Driver.t) (driverInput : js_scalar)
    : option N :=
  if negb (scalar_truthy driverInput) then None
  else
    match List.find (driver_matches (driver_needle driverInput)) drivers with
    | Some d => Some (Driver.driver_number d)
    | None => None
    end.

(** ** Pit stops and tyres *)

(** [dMap[n] || n], with [dMap] filled by
    [drivers.forEach(d => dMap[d.driver_number] = d.name_acronym)]: the
    acronym of the last roster entry with that number, or the number. *)
Inductive driver_label : Type :=
  | Acronym (s : string)
  | CarNumber (n : N).

Fixpoint dMap_get (drivers : list Driver.t) (n : N) : option (option string) :=
  match drivers with
  | [] => None
  | d :: rest =>
      match dMap_get rest n with
      | Some v => Some v
      | None => if N.eqb (Driver.driver_number d) n
                then Some (Driver.name_acronym d) else None
      end
  end.

Definition label_of (drivers : list Driver.t) (n : N) : driver_label :=
  match dMap_get drivers n with
  | Some (Some a) => if is_empty a then CarNumber n else Acronym a
  | _ => CarNumber n
  end.

Record PitRow : Type :=
  { row_driver : driver_label;
    row_lap : Z;
    row_duration : option Z;
    row_tyres_fitted : string }.

(** The predicate of [stints.find(s => ...)] in [pitstops_summary]. *)
Definition stint_matches (p : Pit.t) (s : Stint.t) : bool :=
  N.eqb (Stint.driver_number s) (Pit.driver_number p)
  && Z.leb (Z.abs (Stint.lap_start s - Pit.lap_number p)) 1.

(** [tyre_fitted] of an enhanced pit stop: [undefined] when the stints
    could not be fetched, otherwise [stint ? stint.compound : "Unknown"]. *)
Definition tyre_fitted (stints : option (list Stint.t)) (p : Pit.t) : option string :=
  match stints with
  | None => None
  | Some stints =>
      match List.find (stint_matches p) stints with
      | Some stint => Stint.compound stint
      | None => Some "Unknown"
      end
  end.

Definition or_Unknown (o : option string) : string :=
  match o with
  | Some s => if is_empty s then "Unknown" else s
  | None => "Unknown"
  end.

(** [targetPits]: the stops of the requested driver, or all of them. *)
Definition targetPits_of (pits : list Pit.t) (drivers : list Driver.t)
    (driver : js_scalar) : list Pit.t :=
  if scalar_truthy driver
  then
    match resolveDriverNumber drivers driver with
    | Some driverNum =>
        if N.eqb driverNum 0 then pits
        else List.filter (fun p => N.eqb (Pit.driver_number p) driverNum) pits
    | None => pits
    end
  else pits.

(** [pitstops_summary] of [src/final.js]: the rows [pit_stops] (their
    number is [count]).  [stints] is [None] when fetching them failed. *)
Definition pitstops_summary (pits : list Pit.t) (drivers : list Driver.t)
    (stints : option (list Stint.t)) (driver : js_scalar) : list PitRow :=
  let targetPits := targetPits_of pits drivers driver in
  List.map
    (fun p =>
       {| row_driver := label_of drivers (Pit.driver_number p);
          row_lap := Pit.lap_number p;
          row_duration := Pit.pit_duration p;
          row_tyres_fitted := or_Unknown (tyre_fitted stints p) |})
    targetPits.

(** ** Race control summary (strict driver filter) *)

Definition head_char (s : string) : option ascii :=
  match s with
  | EmptyString => None
  | String c _ => Some c
  end.

Fixpoint last_char (s : string) : option ascii :=
  match s with
  | EmptyString => None
  | String c EmptyString => Some c
  | String _ r => last_char r
  end.

Definition word_char (o : option ascii) : bool :=
  match o with
  | Some c => is_word c
  | None => false
  end.

(** The assertion [\b] between two neighbouring characters of the subject
    ([None] beyond either end). *)
Definition word_boundary (before after : option ascii) : bool :=
  xorb (word_char before) (word_char after).

(** [/\bLIT\b/] tried at one position of the subject: [prev] is the
    character before the position, [s] the subject from it on. *)
Definition match_here (prev : option ascii) (lit s : string) : bool :=
  word_boundary prev (head_char s)
  && match strip_prefix lit s with
     | Some rest =>
         word_boundary
           (match last_char lit with Some c => Some c | None => prev end)
           (head_char rest)
     | None => false
     end.

Fixpoint search_from (prev : option ascii) (lit s : string) : bool :=
  match_here prev lit s
  || match s with
     | EmptyString => false
     | String c r => search_from (Some c) lit r
     end.

(** [msgLower.match(new RegExp(`\\bcar ${driverNum}\\b`))] as a condition. *)
Definition car_regex_matches (msgLower : string) (driverNum : N) : bool :=
  search_from None ("car " +:+ of_N driverNum) msgLower.

Definition globalKeywords : list string :=
  [ "safety car"; "virtual safety car"; "red flag"; "chequered flag";
    "drs enabled"; "drs disabled"; "green light"; "track clear" ].

Definition globalCats : list string :=
  [ "safetycar"; "virtualsafetycar"; "redflag"; "drs" ].

Definition globalFlags : list string := [ "green"; "chequered"; "red"; "yellow" ].

Definition mem (x : string) (l : list string) : bool := List.existsb (String.eqb x) l.

(** [o?.toLowerCase()] compared with the members of [l]. *)
Definition lower_in (o : option string) (l : list string) : bool :=
  match o with
  | Some s => mem (toLowerCase s) l
  | None => false
  end.

Definition msgLower_of (m : Message.t) : string :=
  match Message.message m with
  | Some s => toLowerCase s
  | None => ""
  end.

(** Part A of the filter: the message is about the target driver. *)
Definition isTargetDriverEvent (driverNum : N) (dAcronym dName : string)
    (m : Message.t) : bool :=
  let msgLower := msgLower_of m in
  match Message.driver_number m with
  | Some n => N.eqb n driverNum
  | None => false
  end
  || car_regex_matches msgLower driverNum
  || includes msgLower ("(" +:+ dAcronym +:+ ")")
  || includes msgLower dName.

(** Part B of the filter, under [if (!m.driver_number)]: the message is
    a session-wide event. *)
Definition isGlobalEvent (m : Message.t) : bool :=
  let msgLower := msgLower_of m in
  List.existsb (fun kw => includes msgLower kw) globalKeywords
  || lower_in (Message.category m) globalCats
  || (lower_in (Message.category m) ["flag"] && lower_in (Message.flag m) globalFlags).

(** The predicate of [filtered.filter(m => ...)] in the strict mode. *)
Definition strict_keep (driverNum : N) (dAcronym dName : string) (m : Message.t) : bool :=
  if isTargetDriverEvent driverNum dAcronym dName m then true
  else if negb (N_truthy (Message.driver_number m)) then isGlobalEvent m
  else false.

Module Body.
Record t : Type := mk
  { driver : js_scalar;
    lap_number : option Z;
    lap : option Z;
    filter : option string }.
End Body.

(** [body.lap_number || body.lap], when truthy. *)
Definition lapParam (body : Body.t) : option Z :=
  if Z_truthy (Body.lap_number body) then Body.lap_number body
  else if Z_truthy (Body.lap body) then Body.lap body
  else None.

(** Step 1 of the handler. *)
Definition filter_by_driver (drivers : list Driver.t) (body : Body.t)
    (messages : list Message.t) : result (option N * list Message.t) :=
  if scalar_truthy (Body.driver body)
  then
    match List.find (driver_matches (driver_needle (Body.driver body))) drivers with
    | None =>
        Err ("Driver '" +:+ scalar_toString (Body.driver body)
               +:+ "' not found in this session.")
    | Some driverInfo =>
        let driverNum := Driver.driver_number driverInfo in
        match Driver.name_acronym driverInfo, Driver.last_name driverInfo with
        | Some acronym, Some surname =>
            Ok (Some driverNum,
                List.filter
                  (strict_keep driverNum (toLowerCase acronym) (toLowerCase surname))
                  messages)
        | _, _ => Err "Cannot read properties of null (reading 'toLowerCase')"
        end
    end
  else Ok (None, messages).

(** Step 2 of the handler: [laps_of d n] answers the query for the lap
    [n] of driver [d]. *)
Definition filter_by_lap (drivers : list Driver.t) (laps_of : N -> Z -> list Lap.t)
    (body : Body.t) (driverNum : option N) (filtered : list Message.t)
    : result (list Message.t) :=
  match lapParam body with
  | None => Ok filtered
  | Some targetLap =>
      let refDriver :=
        if N_truthy driverNum then driverNum
        else
          match List.find (fun d => match Driver.position d with
                                    | Some p => N.eqb p 1
                                    | None => false
                                    end) drivers with
          | Some winner => Some (Driver.driver_number winner)
          | None => option_map Driver.driver_number (List.hd_error drivers)
          end in
      match refDriver with
      | None => Err "Cannot read properties of undefined (reading 'driver_number')"
      | Some ref =>
          match laps_of ref targetLap with
          | lap :: _ =>
              let startMs := start_ms lap in
              let endMs :=
                (startMs + match Lap.lap_duration lap with
                           | Some d => d
                           | None => 0
                           end)%Z in
              Ok (List.filter
                    (fun m =>
                       match Message.lap_number m with
                       | Some n => Z.eqb n targetLap
                       | None => false
                       end
                       || (Z.leb startMs (Message.date m) && Z.leb (Message.date m) endMs))
                    filtered)
          | [] => Ok []
          end
      end
  end.

Definition or_empty (o : option string) : string :=
  match o with
  | Some s => s
  | None => ""
  end.

(** Step 3 of the handler. *)
Definition filter_by_keyword (body : Body.t) (filtered : list Message.t)
    : list Message.t :=
  match Body.filter body with
  | None => filtered
  | Some f =>
      if is_empty f then filtered
      else
        let filterRaw := toLowerCase f in
        let filterSpaced :=
          replace_first "virtualsafetycar" "virtual safety car"
            (replace_first "safetycar" "safety car" filterRaw) in
        List.filter
          (fun m =>
             let corpus :=
               toLowerCase (or_empty (Message.category m) +:+ " "
                              +:+ or_empty (Message.flag m) +:+ " "
                              +:+ or_empty (Message.message m)) in
             includes corpus filterRaw || includes corpus filterSpaced)
          filtered
  end.

(** [race_control_summary]: the list [messages] of the result (its length
    is [count]). *)
Definition race_control_summary (drivers : list Driver.t)
    (laps_of : N -> Z -> list Lap.t) (messages : list Message.t) (body : Body.t)
    : result (list Message.t) :=
  match filter_by_driver drivers body messages with
  | Err msg => Err msg
  | Ok (driverNum, filtered) =>
      match filter_by_lap drivers laps_of body driverNum filtered with
      | Err msg => Err msg
      | Ok filtered => Ok (sort_by Message.date (filter_by_keyword body filtered))
      end
  end.

(** ** Position changes between two laps *)

(** A position map [posMap = {}] keyed by car number.  The keys of an
    object that are integers are enumerated in ascending order, so the
    map is kept as an association list sorted by key. *)
Abbreviation posMap := (list (N * Z)).

Fixpoint posMap_set (k : N) (v : Z) (m : posMap) : posMap :=
  match m with
  | [] => [(k, v)]
  | (k', v') :: r =>
      if N.eqb k k' then (k, v) :: r
      else if N.ltb k k' then (k, v) :: m
      else (k', v') :: posMap_set k v r
  end.

Fixpoint posMap_get (m : posMap) (k : N) : option Z :=
  match m with
  | [] => None
  | (k', v) :: r => if N.eqb k k' then Some v else posMap_get r k
  end.

Definition Object_keys (m : posMap) : list N := List.map fst m.

(** A lap with the instant at which it was completed. *)
Definition finish_time (l : Lap.t) : Z :=
  (start_ms l + match Lap.lap_duration l with
                | Some d => d
                | None => 0
                end)%Z.

Definition lap_is_timed (lapNum : Z) (l : Lap.t) : bool :=
  Z.eqb (Lap.lap_number l) lapNum
  && match Lap.date_start l with Some _ => true | None => false end
  && Z_truthy (Lap.lap_duration l).

(** [withFinish] after the sort: the entries [(driver_number, finish_time)]
    of the lap, ascending by finish time. *)
Definition ranking (allLaps : list Lap.t) (lapNum : Z) : list (N * Z) :=
  sort_by snd
    (List.map (fun l => (Lap.driver_number l, finish_time l))
       (List.filter (lap_is_timed lapNum) allLaps)).

(** [withFinish.forEach((entry, index) => posMap[entry.driver_number] = index + 1)],
    started at the index [index]. *)
Fixpoint assign_positions (index : Z) (entries : list (N * Z)) (m : posMap) : posMap :=
  match entries with
  | [] => m
  | entry :: rest => assign_positions (index + 1) rest (posMap_set (fst entry) (index + 1)%Z m)
  end.

Definition getLeaderboard (allLaps : list Lap.t) (lapNum : Z) : posMap :=
  assign_positions 0 (ranking allLaps lapNum) [].

Definition status_of (gained : Z) : string :=
  if Z.ltb 0 gained then "GAINED"
  else if Z.ltb gained 0 then "LOST"
  else "SAME".

Module Change.
Record t : Type := mk
  { driver : driver_label;
    driver_number : N;
    lap_start_pos : Z;
    lap_end_pos : Z;
    positions_gained : Z;
    status : string }.
End Change.

Module RaceChange.
Record t : Type := mk
  { driver : option string;
    team : option string;
    start : Z;
    finish : Z;
    positions_gained : Z;
    status : string }.
End RaceChange.

(** The body of [Object.keys(posCurrent).forEach(driverNum => ...)]: the
    entry pushed for [driverNum], if any. *)
Definition change_of (drivers : list Driver.t) (posPrev posCurrent : posMap)
    (driverNum : N) : option Change.t :=
  match posMap_get posPrev driverNum, posMap_get posCurrent driverNum with
  | Some prev, Some cur =>
      if negb (Z.eqb prev 0) && negb (Z.eqb cur 0)
      then
        let gained := (prev - cur)%Z in
        Some {| Change.driver := label_of drivers driverNum;
                Change.driver_number := driverNum;
                Change.lap_start_pos := prev;
                Change.lap_end_pos := cur;
                Change.positions_gained := gained;
                Change.status := status_of gained |}
      else None
  | _, _ => None
  end.

Fixpoint collect {A B : Type} (f : A -> option B) (l : list A) : list B :=
  match l with
  | [] => []
  | x :: r =>
      match f x with
      | Some y => y :: collect f r
      | None => collect f r
      end
  end.

(** The list [changes] before the optional driver filter and the final
    sort. *)
Definition lap_changes (drivers : list Driver.t) (allLaps : list Lap.t)
    (currentLapNum : Z) : list Change.t :=
  let posCurrent := getLeaderboard allLaps currentLapNum in
  let posPrev := getLeaderboard allLaps (currentLapNum - 1) in
  collect (change_of drivers posPrev posCurrent) (Object_keys posCurrent).

Definition race_change_of (r : SessionResult.t) : option RaceChange.t :=
  match SessionResult.position r, SessionResult.grid_position r with
  | Some position, Some grid =>
      let gained := (grid - position)%Z in
      Some {| RaceChange.driver := SessionResult.name_acronym r;
              RaceChange.team := SessionResult.team_name r;
              RaceChange.start := grid;
              RaceChange.finish := position;
              RaceChange.positions_gained := gained;
              RaceChange.status := status_of gained |}
  | _, _ => None
  end.

Inductive position_changes : Type :=
  | LapChanges (lap : Z) (changes : list Change.t)
  | RaceChanges (all_changes : list RaceChange.t).

Definition race_changes (results : list SessionResult.t) : result position_changes :=
  if Nat.eqb (List.length results) 0 then Err "No position data found."
  else Ok (RaceChanges
             (sort_by (fun c => (- RaceChange.positions_gained c)%Z)
                (collect race_change_of results))).

(** [position_change_summary]: [lap_number] and [driver] are the fields of
    the request body, [allLaps], [drivers] and [results] the answers of
    the upstream API. *)
Definition position_change_summary (lap_number : option Z) (driver : js_scalar)
    (allLaps : list Lap.t) (drivers : list Driver.t)
    (results : list SessionResult.t) : result position_changes :=
  if Z_truthy lap_number
  then
    let currentLapNum := match lap_number with Some n => n | None => 0%Z end in
    if Z.leb currentLapNum 1 then Err "Cannot calculate changes for Lap 1."
    else
      let changes := lap_changes drivers allLaps currentLapNum in
      let changes :=
        if scalar_truthy driver
        then
          match resolveDriverNumber drivers driver with
          | Some targetNum =>
              if N.eqb targetNum 0 then changes
              else List.filter (fun c => N.eqb (Change.driver_number c) targetNum) changes
          | None => changes
          end
        else changes in
      Ok (LapChanges currentLapNum
            (sort_by (fun c => (- Change.positions_gained c)%Z) changes))
  else race_changes results.

(** ** The claims of the specification, read to the letter *)

(** Step (c) of the normalizer as the specification words it: every
    character that is not an upper-case letter or a space is stripped. *)
Definition upper_or_blank (c : ascii) : bool := is_upper c || N.eqb (code c) 32.

(** A string that [trimStart] leaves alone is empty or starts with a
    character that is not white space. *)
Definition starts_clean (s : string) : bool :=
  match s with
  | EmptyString => true
  | String c _ => negb (is_space c)
  end.

(** The text "a<TAB>b". *)
Definition tab_sample : string := String "a" (String "009" (String "b" "")).

(** The join of the specification: the lap range of the stint, widened by
    one lap on either side, contains the lap of the stop. *)
Definition stint_covers (p : Pit.t) (s : Stint.t) : bool :=
  N.eqb (Stint.driver_number s) (Pit.driver_number p)
  && Z.leb (Stint.lap_start s - 1) (Pit.lap_number p)
  && Z.leb (Pit.lap_number p) (Stint.lap_end s + 1).

(** The stint starts within one lap of the stop, for the same driver. *)
Definition starts_near (p : Pit.t) (s : Stint.t) : Prop :=
  Stint.driver_number s = Pit.driver_number p
  /\ (Z.abs (Stint.lap_start s - Pit.lap_number p) <= 1)%Z.

(** What a row reports as the tyres fitted at the stop [p]. *)
Definition fitted (stints : option (list Stint.t)) (p : Pit.t) (tyres : string) : Prop :=
  match stints with
  | None => tyres = "Unknown"
  | Some stints =>
      (exists before stint after,
          stints = (before ++ stint :: after)%list
          /\ starts_near p stint
          /\ Forall (fun s => ~ starts_near p s) before
          /\ tyres = or_Unknown (Stint.compound stint))
      \/ (Forall (fun s => ~ starts_near p s) stints /\ tyres = "Unknown")
  end.

(** A stop in the middle of a stint that runs from lap 1 to lap 20. *)
Definition long_stint : Stint.t := Stint.mk 1 1 20 (Some "SOFT").
Definition stop_on_lap_10 : Pit.t := Pit.mk 1 10 (Some 23500%Z).

(** The four ways in which a roster entry answers to a token. *)
Definition matches_token (needle : string) (d : Driver.t) : Prop :=
  (exists a, Driver.name_acronym d = Some a /\ a <> "" /\ toLowerCase a = needle)
  \/ (Driver.driver_number d <> 0%N /\ of_N (Driver.driver_number d) = needle)
  \/ (exists l, Driver.last_name d = Some l /\ l <> ""
                /\ includes (toLowerCase l) needle = true)
  \/ (exists f, Driver.full_name d = Some f /\ f <> ""
                /\ includes (toLowerCase f) needle = true).

(** The resolver of the specification: no guard on the token, and a field
    answers whenever it is present. *)
Definition claimed_match (needle : string) (d : Driver.t) : bool :=
  match Driver.name_acronym d with
  | Some a => String.eqb (toLowerCase a) needle
  | None => false
  end
  || String.eqb (of_N (Driver.driver_number d)) needle
  || match Driver.last_name d with
     | Some l => includes (toLowerCase l) needle
     | None => false
     end
  || match Driver.full_name d with
     | Some f => includes (toLowerCase f) needle
     | None => false
     end.

Definition resolve_as_claimed (drivers : list Driver.t) (driverInput : js_scalar)
    : option N :=
  option_map Driver.driver_number
    (List.find (claimed_match (driver_needle driverInput)) drivers).

(** [key] is the session with the latest start among [candidates]. *)
Definition latest_of (candidates : list Session.t) (key : N) : Prop :=
  exists s, In s candidates /\ Session.session_key s = key
            /\ forall s', In s' candidates -> (start_ms s' <= start_ms s)%Z.

(** A location map that has every alias of the static default table. *)
Definition covers_defaults (map : location_map) : Prop :=
  Forall (fun alias => is_Some (map !! fst alias)) default_aliases.

(** A location map that has every key of another one. *)
Definition extends (small big : location_map) : Prop :=
  forall k, is_Some (small !! k) -> is_Some (big !! k).

(** Every map in the cache has the default aliases. *)
Definition cache_covers (cache : meetings_cache) : Prop :=
  forall year map, cache !! year = Some map -> covers_defaults map.

(** The calls of the location map builder during the life of the process:
    each call names a year and receives an answer; the maps returned are
    collected in order. *)
Fixpoint build_all (cache : meetings_cache)
    (calls : list (Z * option (list Meeting.t))) : list location_map :=
  match calls with
  | [] => []
  | (year, response) :: rest =>
      let '(map, cache) := fetchAndBuildLocationMap cache year response in
      map :: build_all cache rest
  end.

(** The rank of the driver [d] in a running order whose first place has
    the rank [index + 1]; of several entries of one driver the last one
    counts. *)
Fixpoint rank_from (index : Z) (order : list N) (d : N) : option Z :=
  match order with
  | [] => None
  | first :: rest =>
      match rank_from (index + 1) rest d with
      | Some p => Some p
      | None => if N.eqb d first then Some (index + 1)%Z else None
      end
  end.

(** The running order of a lap: the car numbers by ascending finish time. *)
Definition running_order (allLaps : list Lap.t) (lapNum : Z) : list N :=
  List.map fst (ranking allLaps lapNum).

(** The position of a driver at the end of a lap, if the driver has a
    timed lap there. *)
Definition position_at (allLaps : list Lap.t) (lapNum : Z) (d : N) : option Z :=
  rank_from 0 (running_order allLaps lapNum) d.

(** The character before a position: the last one of the text read so
    far, or what preceded that text. *)
Definition char_before (prev : option ascii) (pre : string) : option ascii :=
  match last_char pre with
  | Some c => Some c
  | None => prev
  end.

(** ** Sample data *)

Definition monza_qualifying : Session.t :=
  Session.mk 9590 "Qualifying" "Italy" (Some 1725112800000%Z).

(** An upstream without meetings, with one qualifying session, held at
    Monza on 31 August 2024. *)
Definition sample_api : Upstream :=
  {| meetings_of := fun _ => None;
     sessions_of := fun _ _ _ => Data [monza_qualifying] |}.

Definition ver : Driver.t :=
  Driver.mk 1 (Some "VER") (Some "Verstappen") (Some "Max Verstappen") (Some 1%N).

Definition str : Driver.t :=
  Driver.mk 18 (Some "STR") (Some "Stroll") (Some "Lance Stroll") (Some 7%N).

Definition no_laps : N -> Z -> list Lap.t := fun _ _ => [].

Definition body_for (token : string) : Body.t :=
  Body.mk (JStr token) None None None.

(** Laps 2 and 3 of the cars 1, 18 and 44: on lap 2 they finish in
    the order 1, 18, 44; on lap 3 car 18 has passed car 1. *)
Definition sample_laps : list Lap.t :=
  [ Lap.mk 1 2 (Some 100000%Z) (Some 90000%Z);
    Lap.mk 18 2 (Some 100500%Z) (Some 90100%Z);
    Lap.mk 44 2 (Some 101000%Z) (Some 91000%Z);
    Lap.mk 1 3 (Some 190000%Z) (Some 92000%Z);
    Lap.mk 18 3 (Some 190600%Z) (Some 90400%Z);
    Lap.mk 44 3 (Some 192000%Z) (Some 91500%Z) ].

(** "CAR 18 yellow flag", attributed to the driver [n]. *)
Definition car18_message (n : N) : Message.t :=
  Message.mk 1000 (Some 5%Z) (Some "Flag") (Some "YELLOW")
    (Some "CAR 18 yellow flag") (Some n).

Definition safety_car_message : Message.t :=
  Message.mk 2000 None (Some "SafetyCar") None (Some "DEPLOYED") None.

Definition blue_flag_message : Message.t :=
  Message.mk 3000 None (Some "Flag") (Some "BLUE") (Some "BLUE FLAG") None.

Definition track_limits_message : Message.t :=
  Message.mk 4000 None (Some "Other") None
    (Some "CAR 1 (VER) TIME 1:32.168 DELETED - TRACK LIMITS") None.

(** ** Authentication *)

Module TokenEntry.
Record t : Type := mk
  { token : string;
    expiresAt : Z }.
End TokenEntry.

(** The answer of the token endpoint. *)
Module TokenResponse.
Record t : Type := mk
  { access_token : string;
    expires_in : Z }.
End TokenResponse.

(** [tokenCache], keyed by user name.  A member that a user name could
    inherit from [Object.prototype] has no [expiresAt], so the test of
    freshness fails on it as it does on a missing entry. *)
Abbreviation token_cache := (gmap string TokenEntry.t).

(** [tokenCache[username] && tokenCache[username].expiresAt > now + 60000]. *)
Definition token_is_fresh (cache : token_cache) (now : Z) (username : string) : bool :=
  match cache !! username with
  | Some entry => Z.ltb (now + 60000) (TokenEntry.expiresAt entry)
  | None => false
  end.

(** [getAccessToken(username, password)] at the instant [now], given the
    cache and the answer of the token endpoint ([None]: the request
    failed).  Returns the token and the cache after the call. *)
Definition getAccessToken (cache : token_cache) (now : Z)
    (username password : option string) (response : option TokenResponse.t)
    : option string * token_cache :=
  match username with
  | Some user =>
      if negb (truthy username) || negb (truthy password) then (None, cache)
      else if token_is_fresh cache now user
      then (option_map TokenEntry.token (cache !! user), cache)
      else
        match response with
        | Some data =>
            (Some (TokenResponse.access_token data),
             <[user := TokenEntry.mk (TokenResponse.access_token data)
                         (now + TokenResponse.expires_in data * 1000)]> cache)
        | None => (None, cache)
        end
  | None => (None, cache)
  end.

(** ** Insight type resolver *)

(** [s.toLowerCase().replace(/[^a-z0-9]/g, "")]. *)
Definition insight_norm (s : string) : string :=
  filter_chars (fun c => is_lower c || is_digit c) (toLowerCase s).

(** [resolveInsightType(inputType)], with [keys] the names of the
    handlers in [INSIGHT_HANDLERS], in the order of the object literal. *)
Definition resolveInsightType (keys : list string) (inputType : option string)
    : option string :=
  match inputType with
  | None => None
  | Some input =>
      if is_empty input then None
      else
        match List.find (fun k => String.eqb (insight_norm k) (insight_norm input)) keys with
        | Some k => if is_empty k then None else Some k
        | None => None
        end
  end.

(** The handlers of [src/final.js]. *)
Definition INSIGHT_HANDLERS_final : list string :=
  [ "fastest_lap_summary"; "telemetry_chart"; "pitstops_summary"; "pitstops_chart";
    "gap_chart"; "weather_chart"; "lap_analysis"; "telemetry_summary" ].

(** The handlers of the strict race-control server. *)
Definition INSIGHT_HANDLERS_strict : list string :=
  [ "race_control_summary"; "team_radio_summary"; "race_results"; "starting_grid";
    "overtake_analysis"; "position_change_summary"; "fastest_lap_summary";
    "telemetry_chart"; "pitstops_summary"; "pitstops_chart"; "gap_chart";
    "weather_chart"; "lap_analysis"; "telemetry_summary" ].

(** ** Fastest lap *)

Module FastestLap.
Record t : Type := mk
  { driver : string;
    full_name : option string;
    lap_time : Z;
    lap_number : Z;
    compound : string;
    tyre_age_laps : Z }.
End FastestLap.

Definition duration_of (l : Lap.t) : Z :=
  match Lap.lap_duration l with
  | Some d => d
  | None => 0%Z
  end.

(** The laps among which [fastest_lap_summary] looks for the fastest:
    those with a duration, of the requested driver if there is one. *)
Definition fastest_candidates (laps : list Lap.t) (drivers : list Driver.t)
    (driver : js_scalar) : result (list Lap.t) :=
  let filtered := List.filter (fun l => Z_truthy (Lap.lap_duration l)) laps in
  if scalar_truthy driver
  then
    match resolveDriverNumber drivers driver with
    | Some driverNum =>
        if N.eqb driverNum 0
        then Err ("Driver '" +:+ scalar_toString driver +:+ "' not found.")
        else Ok (List.filter (fun l => N.eqb (Lap.driver_number l) driverNum) filtered)
    | None => Err ("Driver '" +:+ scalar_toString driver +:+ "' not found.")
    end
  else Ok filtered.

(** The predicate of [stints.find(s => ...)] in [fastest_lap_summary]. *)
Definition stint_contains (lap_number : Z) (s : Stint.t) : bool :=
  Z.leb (Stint.lap_start s) lap_number && Z.leb lap_number (Stint.lap_end s).

(** [compound] and [tyreAge] after the [try] block. *)
Definition tyre_of (stints : option (list Stint.t)) (lap_number : Z) : string * Z :=
  match stints with
  | None => ("N/A", 0%Z)
  | Some stints =>
      match List.find (stint_contains lap_number) stints with
      | Some matchingStint =>
          (or_Unknown (Stint.compound matchingStint),
           (lap_number - Stint.lap_start matchingStint + 1)%Z)
      | None => ("N/A", 0%Z)
      end
  end.

(** [fastest_lap_summary] of [src/final.js]: [detail n] answers the
    roster query for the driver [n], [stints_of n] the stint query
    ([None] when it fails). *)
Definition fastest_lap_summary (laps : list Lap.t) (drivers : list Driver.t)
    (detail : N -> list Driver.t) (stints_of : N -> option (list Stint.t))
    (driver : js_scalar) : result FastestLap.t :=
  match fastest_candidates laps drivers driver with
  | Err msg => Err msg
  | Ok filtered =>
      match sort_by duration_of filtered with
      | [] => Err "No valid laps found for this criteria."
      | fastLap :: _ =>
          let dDetail := List.hd_error (detail (Lap.driver_number fastLap)) in
          let '(compound, tyreAge) :=
            tyre_of (stints_of (Lap.driver_number fastLap)) (Lap.lap_number fastLap) in
          Ok {| FastestLap.driver :=
                  match dDetail with
                  | Some d =>
                      match Driver.name_acronym d with
                      | Some a => if is_empty a then "UNK" else a
                      | None => "UNK"
                      end
                  | None => "UNK"
                  end;
                FastestLap.full_name :=
                  match dDetail with
                  | Some d => Driver.full_name d
                  | None => None
                  end;
                FastestLap.lap_time := duration_of fastLap;
                FastestLap.lap_number := Lap.lap_number fastLap;
                FastestLap.compound := compound;
                FastestLap.tyre_age_laps := tyreAge |}
      end
  end.

(** ** Gap to the leader *)

(** [dTimes[d]]: the laps of the driver [d] in the order of the answer,
    with [lap_duration || 100] as the time (100 seconds). *)
Definition dTimes (laps : list Lap.t) (d : N) : list (Z * Z) :=
  List.map
    (fun l => (Lap.lap_number l,
               if Z_truthy (Lap.lap_duration l) then duration_of l else 100000%Z))
    (List.filter (fun l => N.eqb (Lap.driver_number l) d) laps).

(** The running totals [{lap, total}], from the total [tot] on. *)
Fixpoint running_totals (tot : Z) (times : list (Z * Z)) : list (Z * Z) :=
  match times with
  | [] => []
  | (lap, time) :: rest => (lap, (tot + time)%Z) :: running_totals (tot + time) rest
  end.

(** [cumulative[d]]. *)
Definition cumulative (laps : list Lap.t) (d : N) : list (Z * Z) :=
  running_totals 0 (sort_by fst (dTimes laps d)).

(** [data] of one dataset: the totals of a driver minus those of the
    reference at the same index, as long as the reference has one. *)
Fixpoint gaps (mine ref : list (Z * Z)) : list Z :=
  match mine, ref with
  | l :: mine', r :: ref' => (snd l - snd r)%Z :: gaps mine' ref'
  | _, _ => []
  end.

Module GapDataset.
Record t : Type := mk
  { label : option string;
    data : list Z }.
End GapDataset.

(** [dMap[n]], which may be [undefined]. *)
Definition dMap_label (drivers : list Driver.t) (n : N) : option string :=
  match dMap_get drivers n with
  | Some label => label
  | None => None
  end.

(** The chart that [gap_chart] renders: its [labels] and [datasets]. *)
Definition gap_chart (laps : list Lap.t) (drivers : list Driver.t)
    : result (list Z * list GapDataset.t) :=
  let top5 := List.map Driver.driver_number (List.firstn 5 drivers) in
  match top5 with
  | [] => Err "Insufficient data for gap analysis."
  | ref :: _ =>
      match cumulative laps ref with
      | [] => Err "Insufficient data for gap analysis."
      | reference =>
          Ok (List.map fst reference,
              collect
                (fun dNum =>
                   match cumulative laps dNum with
                   | [] => None
                   | mine =>
                       Some {| GapDataset.label := dMap_label drivers dNum;
                               GapDataset.data := gaps mine reference |}
                   end)
                top5)
      end
  end.

(** ** Raw data proxy *)

Definition ALIAS : list (string * string) :=
  [ ("circuit_id", "circuit_key"); ("meeting_id", "meeting_key");
    ("session_id", "session_key"); ("driver_id", "driver_number") ].

(** The body of [Object.entries(ALIAS).forEach(([b, g]) => ...)]. *)
Definition rename_param (queryParams : gmap string string) (alias : string * string)
    : gmap string string :=
  match queryParams !! fst alias with
  | Some v =>
      if is_empty v then queryParams
      else delete (fst alias) (<[snd alias := v]> queryParams)
  | None => queryParams
  end.

Definition translate_aliases (queryParams : gmap string string) : gmap string string :=
  List.fold_left rename_param ALIAS queryParams.

(** What [raw_data_proxy] does to the answer of the upstream:
    [monthFilter] is [queryParams.month || queryParams.date], [country]
    tells whether [queryParams.country_name] is set. *)
Definition proxy_postprocess {A : Type} `{HasDateStart A} (resource : string)
    (monthFilter : js_scalar) (country : bool) (data : list A) : list A :=
  if mem resource ["meetings"; "sessions"]
  then
    let data :=
      if scalar_truthy monthFilter then filterByMonth data monthFilter else data in
    let data := sort_by (fun item => (- start_ms item)%Z) data in
    if Nat.ltb 5 (List.length data) && negb country then List.firstn 5 data else data
  else data.

(** ** More sample data *)

Definition sample_token : TokenResponse.t := TokenResponse.mk "abc" 3600.

Definition monza_race : Session.t :=
  Session.mk 9594 "Race" "Italy" (Some 1725195600000%Z).

Definition italian_api : Upstream :=
  {| meetings_of := fun _ => None;
     sessions_of := fun _ country _ =>
       if String.eqb country "Italy" then Data [monza_qualifying; monza_race]
       else Data [] |}.

(** ** Notions used by the further properties *)

(** The item starts in the month [k] (0 for January), UTC. *)
Definition in_month {A : Type} `{HasDateStart A} (k : Z) (item : A) : bool :=
  match date_start item with
  | Some t => Z.eqb (getUTCMonth t) k
  | None => false
  end.

(** The text in which the keyword filter searches:
    [[m.category, m.flag, m.message].join(" ").toLowerCase()]. *)
Definition corpus_of (m : Message.t) : string :=
  toLowerCase (or_empty (Message.category m) +:+ " "
                 +:+ or_empty (Message.flag m) +:+ " "
                 +:+ or_empty (Message.message m)).

(** A request body with a keyword filter only. *)
Definition keyword_body (f : string) : Body.t := Body.mk JNull None None (Some f).

(** The window of a lap: from its start to its start plus its duration. *)
Definition in_lap_window (lap : Lap.t) (m : Message.t) : Prop :=
  (start_ms lap <= Message.date m <= finish_time lap)%Z.

(** The places gained by all the drivers of a list of changes together. *)
Definition total_gained (changes : list Change.t) : Z :=
  List.fold_right (fun c acc => (Change.positions_gained c + acc)%Z) 0%Z changes.

(** The sum of [f] over a list of car numbers. *)
Definition sum_over (f : N -> Z) (l : list N) : Z :=
  List.fold_right (fun d acc => (f d + acc)%Z) 0%Z l.

(** The position of a driver, 0 without one. *)
Definition place (order : list N) (index : Z) (d : N) : Z :=
  match rank_from index order d with
  | Some p => p
  | None => 0%Z
  end.

(** The sum of the ranks [index + 1], ..., [index + n]. *)
Fixpoint ranks_sum (index : Z) (n : nat) : Z :=
  match n with
  | O => 0%Z
  | S n' => (index + 1 + ranks_sum (index + 1) n')%Z
  end.

(** ** Notions used by the revised statements *)

(** A character of the ASCII range, on which the case mappings of
    JavaScript act as the model's do. *)
Definition is_ascii (c : ascii) : bool := N.ltb (code c) 128.

(** What the normalizer makes of one character, in the words of the
    amended claim: an underscore or a hyphen becomes a space, a white
    space character is kept, any other character is upper-cased and kept
    where that gives upper-case letters, and dropped otherwise. *)
Definition canon_char (c : ascii) : string :=
  if N.eqb (code c) 95 || N.eqb (code c) 45 then " "
  else if is_space c then String c ""
  else filter_chars is_upper (toUpperCase (String c "")).

(** The images of the characters of a text, one after the other. *)
Fixpoint canonical_chars (s : string) : string :=
  match s with
  | EmptyString => EmptyString
  | String c r => canon_char c +:+ canonical_chars r
  end.

(** The driver whose lap gives the time window of the lap filter: the
    driver of the request if it resolves to a car number other than 0,
    else the roster entry in position 1, else the first roster entry. *)
Definition session_leader (drivers : list Driver.t) : option N :=
  match List.find (fun d => match Driver.position d with
                            | Some p => N.eqb p 1
                            | None => false
                            end) drivers with
  | Some winner => Some (Driver.driver_number winner)
  | None => option_map Driver.driver_number (List.hd_error drivers)
  end.

Definition lap_reference (drivers : list Driver.t) (driver : js_scalar) : option N :=
  if scalar_truthy driver
  then
    match resolveDriverNumber drivers driver with
    | Some n => if N.eqb n 0 then session_leader drivers else Some n
    | None => session_leader drivers
    end
  else session_leader drivers.

(** The upstream knows lap 5 of car 1 only: it starts at the instant
    1900 and lasts 200 milliseconds. *)
Definition lap_5_of_car_1 : N -> Z -> list Lap.t :=
  fun d n =>
    if N.eqb d 1 && Z.eqb n 5 then [Lap.mk 1 5 (Some 1900%Z) (Some 200%Z)] else [].

(** The lap lies in the lap range of the stint. *)
Definition covers_lap (lap_number : Z) (s : Stint.t) : Prop :=
  (Stint.lap_start s <= lap_number <= Stint.lap_end s)%Z.

(** What the fastest lap summary reports about the tyres of the lap
    [lap_number], given the answer of the stint query. *)
Definition tyres_reported (stints : option (list Stint.t)) (lap_number : Z)
    (compound : string) (age : Z) : Prop :=
  match stints with
  | None => compound = "N/A" /\ age = 0%Z
  | Some stints =>
      (Forall (fun s => ~ covers_lap lap_number s) stints
       /\ compound = "N/A" /\ age = 0%Z)
      \/ (exists before stint after,
             stints = (before ++ stint :: after)%list
             /\ covers_lap lap_number stint
             /\ Forall (fun s => ~ covers_lap lap_number s) before
             /\ compound = or_Unknown (Stint.compound stint)
             /\ age = (lap_number - Stint.lap_start stint + 1)%Z
             /\ (1 <= age)%Z)
  end.

(** A lap that counts for the fastest lap: it has a duration, and it is a
    lap of the driver [target] when one is asked for. *)
Definition asked_for (target : option N) (l : Lap.t) : Prop :=
  Z_truthy (Lap.lap_duration l) = true
  /\ match target with
     | Some n => Lap.driver_number l = n
     | None => True
     end.

(** The acronym that the summary shows for the driver of the lap. *)
Definition shown_acronym (detail : list Driver.t) : string :=
  match detail with
  | d :: _ =>
      match Driver.name_acronym d with
      | Some a => if is_empty a then "UNK" else a
      | None => "UNK"
      end
  | [] => "UNK"
  end.

(** The outcome of the fastest lap summary for the laps that count. *)
Definition fastest_outcome (laps : list Lap.t) (detail : N -> list Driver.t)
    (stints_of : N -> option (list Stint.t)) (target : option N)
    (outcome : result FastestLap.t) : Prop :=
  (Forall (fun l => ~ asked_for target l) laps
   /\ outcome = Err "No valid laps found for this criteria.")
  \/ (exists summary l,
         outcome = Ok summary
         /\ In l laps
         /\ asked_for target l
         /\ FastestLap.lap_time summary = duration_of l
         /\ FastestLap.lap_number summary = Lap.lap_number l
         /\ FastestLap.driver summary = shown_acronym (detail (Lap.driver_number l))
         /\ (forall l', In l' laps -> asked_for target l' ->
               (FastestLap.lap_time summary <= duration_of l')%Z)
         /\ tyres_reported (stints_of (Lap.driver_number l)) (Lap.lap_number l)
              (FastestLap.compound summary) (FastestLap.tyre_age_laps summary)).

(** The sum of a list of times. *)
Definition sum_Z (l : list Z) : Z := List.fold_right Z.add 0%Z l.

(** The total time of a driver after the [n] first of the laps the
    upstream has of that driver, taken in the order of the lap numbers;
    a lap without duration counts for 100 seconds. *)
Definition total_after (laps : list Lap.t) (d : N) (n : nat) : Z :=
  sum_Z (List.map snd (List.firstn n (sort_by fst (dTimes laps d)))).

(** The driver has a lap in the answer of the upstream. *)
Definition has_lap (laps : list Lap.t) (d : N) : bool :=
  List.existsb (fun l => N.eqb (Lap.driver_number l) d) laps.

(** The number of laps the upstream has of a driver. *)
Definition lap_count (laps : list Lap.t) (d : N) : nat :=
  List.length (List.filter (fun l => N.eqb (Lap.driver_number l) d) laps).

(** The series of the driver [d] against the reference [ref]: it carries
    the acronym of the driver, and its value number [i] is the total
    time of the driver after [i] laps minus that of the reference after
    as many laps, for as many laps as both have. *)
Definition series_of (laps : list Lap.t) (drivers : list Driver.t) (ref d : N)
    : GapDataset.t :=
  {| GapDataset.label := dMap_label drivers d;
     GapDataset.data :=
       List.map
         (fun i => (total_after laps d (S i) - total_after laps ref (S i))%Z)
         (List.seq 0 (Nat.min (lap_count laps d) (lap_count laps ref))) |}.

(** * Properties *)

(** ** Characters *)

Ltac each_char c :=
  destruct c as [[] [] [] [] [] [] [] []]; vm_compute; try reflexivity; try discriminate.

Lemma keep_char_not_dash (c : ascii) : keep_char c = true -> dash_to_space c = c.
Proof. each_char c. Qed.

Lemma keep_char_upper_fixed (c : ascii) : keep_char c = true -> upper_char c = c.
Proof. each_char c. Qed.

Lemma upper_char_not_lower (c : ascii) : is_lower (upper_char c) = false.
Proof. each_char c. Qed.

(** ** Strings *)

Lemma all_chars_filter (p : ascii -> bool) (s : string) :
  all_chars p (filter_chars p s) = true.
Proof.
  induction s as [|c r IH]; simpl; [reflexivity|].
  destruct (p c) eqn:E; simpl; [rewrite E|]; exact IH.
Qed.

Lemma all_chars_map (p : ascii -> bool) (f : ascii -> ascii) (s : string) :
  (forall c, p (f c) = true) -> all_chars p (map_chars f s) = true.
Proof.
  intros Hf. induction s as [|c r IH]; simpl; [reflexivity|].
  now rewrite Hf, IH.
Qed.

Lemma all_chars_trimStart (p : ascii -> bool) (s : string) :
  all_chars p s = true -> all_chars p (trimStart s) = true.
Proof.
  induction s as [|c r IH]; simpl; [easy|].
  intros H. apply andb_true_iff in H as [Hc Hr].
  destruct (is_space c); [auto|]. simpl. now rewrite Hc, Hr.
Qed.

Lemma all_chars_trimEnd (p : ascii -> bool) (s : string) :
  all_chars p s = true -> all_chars p (trimEnd s) = true.
Proof.
  induction s as [|c r IH]; simpl; [easy|].
  intros H. apply andb_true_iff in H as [Hc Hr]. specialize (IH Hr).
  destruct (trimEnd r) as [|c' t].
  - destruct (is_space c); simpl; [reflexivity|now rewrite Hc].
  - change (p c && all_chars p (String c' t) = true). now rewrite Hc, IH.
Qed.

Lemma all_chars_trim (p : ascii -> bool) (s : string) :
  all_chars p s = true -> all_chars p (trim s) = true.
Proof. intros H. now apply all_chars_trimEnd, all_chars_trimStart. Qed.

Lemma map_chars_fixed (p : ascii -> bool) (f : ascii -> ascii) (s : string) :
  (forall c, p c = true -> f c = c) -> all_chars p s = true -> map_chars f s = s.
Proof.
  intros Hf. induction s as [|c r IH]; simpl; [easy|].
  intros H. apply andb_true_iff in H as [Hc Hr]. now rewrite (Hf c Hc), IH.
Qed.

Lemma filter_chars_fixed (p : ascii -> bool) (s : string) :
  all_chars p s = true -> filter_chars p s = s.
Proof.
  induction s as [|c r IH]; simpl; [easy|].
  intros H. apply andb_true_iff in H as [Hc Hr]. now rewrite Hc, IH.
Qed.

Lemma trimEnd_idempotent (s : string) : trimEnd (trimEnd s) = trimEnd s.
Proof.
  induction s as [|c r IH]; simpl; [reflexivity|].
  destruct (trimEnd r) as [|c' t] eqn:E.
  - destruct (is_space c) eqn:Ec; simpl; [reflexivity|now rewrite Ec].
  - change (trimEnd (String c (String c' t)) = String c (String c' t)).
    change (match trimEnd (String c' t) with
            | EmptyString => if is_space c then EmptyString else String c EmptyString
            | t0 => String c t0
            end = String c (String c' t)).
    now rewrite IH.
Qed.

Lemma trimStart_clean (s : string) : starts_clean (trimStart s) = true.
Proof.
  induction s as [|c r IH]; simpl; [reflexivity|].
  destruct (is_space c) eqn:E; [exact IH|]. simpl. now rewrite E.
Qed.

Lemma trimStart_fixed (s : string) : starts_clean s = true -> trimStart s = s.
Proof.
  destruct s as [|c r]; simpl; [reflexivity|].
  now destruct (is_space c).
Qed.

Lemma trimEnd_clean (s : string) :
  starts_clean s = true -> starts_clean (trimEnd s) = true.
Proof.
  destruct s as [|c r]; simpl; [reflexivity|].
  intros H. destruct (trimEnd r); [|exact H].
  destruct (is_space c) eqn:E; simpl; [reflexivity|now rewrite E].
Qed.

Lemma trim_idempotent (s : string) : trim (trim s) = trim s.
Proof.
  unfold trim.
  rewrite (trimStart_fixed (trimEnd (trimStart s))).
  - apply trimEnd_idempotent.
  - apply trimEnd_clean, trimStart_clean.
Qed.

Lemma filter_upper_trimStart (s : string) :
  filter_chars is_upper (trimStart s) = filter_chars is_upper s.
Proof.
  induction s as [|c r IH]; simpl; [reflexivity|].
  destruct (is_space c) eqn:E; [|reflexivity].
  rewrite IH. replace (is_upper c) with false; [reflexivity|].
  revert E. each_char c.
Qed.

Lemma filter_upper_trimEnd (s : string) :
  filter_chars is_upper (trimEnd s) = filter_chars is_upper s.
Proof.
  induction s as [|c r IH]; simpl; [reflexivity|].
  destruct (trimEnd r) as [|c' t] eqn:E.
  - simpl in IH. rewrite <- IH.
    destruct (is_space c) eqn:Ec; simpl.
    + replace (is_upper c) with false; [reflexivity|]. revert Ec. each_char c.
    + reflexivity.
  - change (filter_chars is_upper (String c (String c' t))) with
      (if is_upper c then String c (filter_chars is_upper (String c' t))
       else filter_chars is_upper (String c' t)).
    now rewrite IH.
Qed.

Lemma filter_upper_keep (s : string) :
  filter_chars is_upper (filter_chars keep_char s) = filter_chars is_upper s.
Proof.
  induction s as [|c r IH]; simpl; [reflexivity|].
  destruct (keep_char c) eqn:Ek; simpl; rewrite IH; [reflexivity|].
  replace (is_upper c) with false; [reflexivity|]. revert Ek. each_char c.
Qed.

Lemma filter_upper_dash (s : string) :
  filter_chars is_upper (toUpperCase (map_chars dash_to_space s))
  = filter_chars is_upper (toUpperCase s).
Proof.
  unfold toUpperCase. induction s as [|c r IH]; simpl; [reflexivity|].
  rewrite IH.
  assert (H : is_upper (upper_char (dash_to_space c)) = is_upper (upper_char c)
              /\ (is_upper (upper_char c) = true ->
                  upper_char (dash_to_space c) = upper_char c)).
  { split; each_char c. }
  destruct H as [H1 H2]. rewrite H1.
  destruct (is_upper (upper_char c)) eqn:E; [now rewrite H2|reflexivity].
Qed.

(** ** The location normalizer *)

Lemma normalizeString_chars (str : option string) :
  all_chars keep_char (normalizeString str) = true.
Proof.
  destruct str as [s|]; [|reflexivity]. unfold normalizeString.
  destruct (is_empty s); [reflexivity|].
  apply all_chars_trim, all_chars_filter.
Qed.

Lemma normalizeString_trimmed (str : option string) :
  trim (normalizeString str) = normalizeString str.
Proof.
  destruct str as [s|]; [|reflexivity]. unfold normalizeString.
  destruct (is_empty s); [reflexivity|]. apply trim_idempotent.
Qed.

Lemma normalizeString_letters (s : string) :
  filter_chars is_upper (normalizeString (Some s)) = filter_chars is_upper (toUpperCase s).
Proof.
  unfold normalizeString. destruct s as [|c r]; [reflexivity|].
  cbv [is_empty trim].
  now rewrite filter_upper_trimEnd, filter_upper_trimStart, filter_upper_keep,
    filter_upper_dash.
Qed.

Lemma dash_to_space_twice (s : string) :
  map_chars dash_to_space (map_chars dash_to_space s) = map_chars dash_to_space s.
Proof.
  induction s as [|c r IH]; simpl; [reflexivity|]. rewrite IH. f_equal.
  each_char c.
Qed.

(** C6, the claim to the letter fails: a TAB inside the text is neither an
    upper-case letter nor a space, and it survives. *)
Lemma normalizeString_keeps_tab :
  normalizeString (Some tab_sample) = String "A" (String "009" (String "B" ""))
  /\ all_chars upper_or_blank (normalizeString (Some tab_sample)) = false.
Proof. split; reflexivity. Qed.

Lemma canon_char_step (c : ascii) :
  (if keep_char (upper_char (dash_to_space c))
   then String (upper_char (dash_to_space c)) ""
   else "") = canon_char c.
Proof. each_char c. Qed.

Lemma canonical_chars_pipeline (s : string) :
  filter_chars keep_char (toUpperCase (map_chars dash_to_space s)) = canonical_chars s.
Proof.
  unfold toUpperCase. induction s as [|c r IH]; simpl; [reflexivity|].
  rewrite <- canon_char_step, IH.
  now destruct (keep_char (upper_char (dash_to_space c))).
Qed.

(** C6 (amended): [normalizeString] is a total function; an absent or empty
    input gives the empty string; underscores and hyphens count as spaces;
    the result consists of upper-case letters and white space only (the
    class [\s], not the space alone), its letters are the letters of the
    upper-cased input in order, it has no white space at either end; and
    normalizing is idempotent.  Character by character: an underscore or
    a hyphen becomes a space, a white space character is kept, a letter
    is upper-cased, every other character is dropped, and the white
    space at both ends of what remains is trimmed; a text of upper-case
    letters and white space is only trimmed. *)
Theorem normalizeString_canonical (str : option string) :
  normalizeString None = ""
  /\ normalizeString (Some "") = ""
  /\ normalizeString (option_map (map_chars dash_to_space) str) = normalizeString str
  /\ all_chars keep_char (normalizeString str) = true
  /\ filter_chars is_upper (normalizeString str)
     = filter_chars is_upper (toUpperCase (or_empty str))
  /\ trim (normalizeString str) = normalizeString str
  /\ normalizeString (Some (normalizeString str)) = normalizeString str
  /\ normalizeString str = trim (canonical_chars (or_empty str))
  /\ (all_chars keep_char (or_empty str) = true ->
      normalizeString str = trim (or_empty str))
  /\ normalizeString (Some "Abu_Dhabi") = "ABU DHABI"
  /\ normalizeString (Some " abu-dhabi  GP 2024 ") = "ABU DHABI  GP".
Proof.
  split; [reflexivity|]. split; [reflexivity|].
  split.
  { destruct str as [s|]; [|reflexivity]. simpl.
    destruct s as [|c r]; [reflexivity|].
    change (is_empty (map_chars dash_to_space (String c r))) with false.
    cbv [is_empty]. now rewrite dash_to_space_twice. }
  split; [apply normalizeString_chars|].
  split.
  { destruct str as [s|]; [apply normalizeString_letters|reflexivity]. }
  split; [apply normalizeString_trimmed|].
  split.
  { pose proof (normalizeString_chars str) as Hk.
    pose proof (normalizeString_trimmed str) as Ht.
    set (r := normalizeString str) in *.
    unfold normalizeString at 1.
    destruct (is_empty r) eqn:E; [now destruct r|].
    rewrite (map_chars_fixed keep_char dash_to_space r keep_char_not_dash Hk).
    unfold toUpperCase.
    rewrite (map_chars_fixed keep_char upper_char r keep_char_upper_fixed Hk).
    now rewrite (filter_chars_fixed keep_char r Hk). }
  assert (Hc : normalizeString str = trim (canonical_chars (or_empty str))).
  { destruct str as [s|]; [|reflexivity]. unfold normalizeString, or_empty.
    destruct s as [|c r]; [reflexivity|]. cbv [is_empty].
    now rewrite canonical_chars_pipeline. }
  split; [exact Hc|]. split; [|split; reflexivity].
  intros Hk. rewrite Hc. rewrite <- canonical_chars_pipeline.
  rewrite (map_chars_fixed keep_char dash_to_space _ keep_char_not_dash Hk).
  unfold toUpperCase.
  rewrite (map_chars_fixed keep_char upper_char _ keep_char_upper_fixed Hk).
  now rewrite (filter_chars_fixed keep_char _ Hk).
Qed.

(** ** Session types *)

Lemma is_lower_in_key (p : string) (s : string) :
  all_chars (fun c => negb (is_lower c)) s = true ->
  all_chars (fun c => negb (is_lower c)) p = false ->
  String.eqb s p = false.
Proof.
  intros Hs Hp. destruct (String.eqb s p) eqn:E; [|reflexivity].
  apply String.eqb_eq in E. subst. congruence.
Qed.

Lemma upper_key_has_no_lower (t : string) :
  all_chars (fun c => negb (is_lower c)) (trim (toUpperCase t)) = true.
Proof.
  apply all_chars_trim, all_chars_map. intros c.
  now rewrite upper_char_not_lower.
Qed.

(** The key that [mapSessionType] looks up names no member of
    [Object.prototype]: the lookup is decided by the own properties. *)
Lemma session_key_not_inherited (t : string) :
  obj_get sessionTypeMap (trim (toUpperCase t))
  = match own_get sessionTypeMap (trim (toUpperCase t)) with
    | Some label => Own label
    | None => Undefined
    end.
Proof.
  unfold obj_get. destruct (own_get _ _); [reflexivity|].
  pose proof (upper_key_has_no_lower t) as H.
  cbv [Object_prototype_keys List.existsb].
  repeat (rewrite (is_lower_in_key _ _ H) by reflexivity). reflexivity.
Qed.

Lemma mapSessionType_short_codes :
  mapSessionType (Some "R") = "Race"
  /\ mapSessionType (Some "Q") = "Qualifying"
  /\ mapSessionType (Some "FP1") = "Practice 1"
  /\ mapSessionType (Some "FP2") = "Practice 2"
  /\ mapSessionType (Some "FP3") = "Practice 3"
  /\ mapSessionType (Some "S") = "Sprint"
  /\ mapSessionType (Some "Race") = "Race"
  /\ mapSessionType (Some "Qualifying") = "Qualifying"
  /\ mapSessionType (Some " fp2 ") = "Practice 2".
Proof. repeat split; reflexivity. Qed.

Lemma mapSessionType_default (type : option string) :
  mapSessionType None = "Race"
  /\ mapSessionType (Some "") = "Race"
  /\ (own_get sessionTypeMap (trim (toUpperCase (or_empty type))) = None ->
      mapSessionType type = "Race").
Proof.
  repeat split. intros H. destruct type as [t|]; [|reflexivity].
  unfold mapSessionType. cbn [or_empty] in H. rewrite H. now destruct (is_empty t).
Qed.

Lemma mapSessionType_canonical (type : option string) :
  In (mapSessionType type) canonical_session_names.
Proof.
  destruct type as [t|]; [|simpl; auto]. unfold mapSessionType.
  destruct (is_empty t); [simpl; auto|].
  generalize (trim (toUpperCase t)). intros k.
  cbv [sessionTypeMap own_get].
  repeat (destruct (String.eqb _ k); [simpl; auto 10|]). simpl; auto.
Qed.

(** C7, at the failing inputs: the upstream names of the sprint and of
    the practice sessions are not keys of the table, so each of them is
    answered with the race. *)
Theorem mapSessionType_drops_canonical_names :
  mapSessionType (Some "Sprint") = "Race"
  /\ mapSessionType (Some "Practice 1") = "Race"
  /\ mapSessionType (Some "Practice 2") = "Race"
  /\ mapSessionType (Some "Practice 3") = "Race"
  /\ In "Sprint" canonical_session_names.
Proof. repeat split; try reflexivity. simpl; auto 10. Qed.

(** ** Month filter *)

Lemma filterByMonth_unrecognized {A : Type} `{HasDateStart A}
    (data : list A) (month : js_scalar) :
  obj_get monthMap (month_key month) = Undefined ->
  filterByMonth data month = data.
Proof.
  intros E. unfold filterByMonth. rewrite E. now destruct (negb _).
Qed.

Lemma filterByMonth_absent {A : Type} `{HasDateStart A} (data : list A) :
  filterByMonth data JNull = data /\ filterByMonth data (JStr "") = data.
Proof. split; reflexivity. Qed.

(** C10, at the failing input: "constructor" is no month, yet the lookup
    in the object literal finds the member inherited from
    [Object.prototype], which is not [undefined]; every item is then
    dropped. *)
Theorem filterByMonth_inherited_key_empties (data : list Session.t) :
  own_get monthMap (month_key (JStr "constructor")) = None
  /\ filterByMonth data (JStr "constructor") = []
  /\ filterByMonth data (JStr "__proto__") = [].
Proof.
  split; [reflexivity|].
  split.
  - change (List.filter (fun item : Session.t =>
              match date_start item with Some _ => false | None => false end) data = []).
    induction data as [|s r IH]; simpl; [reflexivity|].
    destruct (date_start s); exact IH.
  - change (List.filter (fun item : Session.t =>
              match date_start item with Some _ => false | None => false end) data = []).
    induction data as [|s r IH]; simpl; [reflexivity|].
    destruct (date_start s); exact IH.
Qed.

(** ** Sorting *)

Section SortingFacts.
Context {A : Type} (key : A -> Z).

Lemma insert_by_perm (x : A) (l : list A) :
  Permutation (insert_by key x l) (x :: l).
Proof.
  induction l as [|y r IH]; simpl; [reflexivity|].
  destruct (Z.leb (key x) (key y)); [reflexivity|].
  rewrite IH. apply perm_swap.
Qed.

Lemma sort_by_perm (l : list A) : Permutation (sort_by key l) l.
Proof.
  induction l as [|x r IH]; simpl; [reflexivity|].
  rewrite insert_by_perm. now constructor.
Qed.

Lemma sort_by_In (l : list A) (x : A) : In x (sort_by key l) <-> In x l.
Proof.
  split; apply Permutation_in; [|symmetry]; apply sort_by_perm.
Qed.

Lemma insert_by_ascending (x : A) (l : list A) :
  ascending key l -> ascending key (insert_by key x l).
Proof.
  unfold ascending. induction l as [|y r IH]; simpl; intros Hs.
  - repeat constructor.
  - inversion Hs as [|? ? Hr Hy]; subst.
    destruct (Z.leb (key x) (key y)) eqn:E.
    + apply Z.leb_le in E. constructor; [exact Hs|].
      constructor; [exact E|].
      eapply Forall_impl; [exact Hy|]. simpl. intros; lia.
    + apply Z.leb_gt in E. constructor; [now apply IH|].
      eapply Permutation_Forall; [symmetry; apply insert_by_perm|].
      constructor; [lia|exact Hy].
Qed.

Lemma sort_by_ascending (l : list A) : ascending key (sort_by key l).
Proof.
  induction l as [|x r IH]; simpl; [constructor|now apply insert_by_ascending].
Qed.

Lemma last_item_In (l : list A) (x : A) : last_item l = Some x -> In x l.
Proof.
  induction l as [|y r IH]; simpl; [discriminate|].
  destruct r as [|z r']; [intros [= ->]; now left|]. intros H. right. now apply IH.
Qed.

Lemma last_item_some (l : list A) : l <> [] -> exists x, last_item l = Some x.
Proof.
  induction l as [|y r IH]; [easy|]. intros _.
  destruct r as [|z r']; [now exists y|].
  destruct IH as [x Hx]; [easy|]. exists x. exact Hx.
Qed.

Lemma last_item_greatest (l : list A) (x : A) :
  ascending key l -> last_item l = Some x -> forall y, In y l -> (key y <= key x)%Z.
Proof.
  unfold ascending. induction l as [|z r IH]; simpl; [discriminate|].
  intros Hs Hl y Hy. inversion Hs as [|? ? Hr Hz]; subst.
  destruct r as [|z' r'].
  - injection Hl as ->. destruct Hy as [->|[]]. lia.
  - destruct Hy as [->|Hy].
    + rewrite List.Forall_forall in Hz. apply Hz. now apply last_item_In.
    + now apply IH.
Qed.

End SortingFacts.

(** ** Session resolver *)

Lemma strip_prefix_here (p b : string) : strip_prefix p (p +:+ b) = Some b.
Proof.
  induction p as [|c r IH]; simpl; [reflexivity|].
  now rewrite Ascii.eqb_refl.
Qed.

Lemma includes_here (p b : string) : includes (p +:+ b) p = true.
Proof.
  destruct (p +:+ b) eqn:E; simpl; rewrite <- E, strip_prefix_here; reflexivity.
Qed.

Lemma includes_skip (a m p : string) :
  includes m p = true -> includes (a +:+ m) p = true.
Proof.
  intros H. induction a as [|c r IH]; simpl; [exact H|].
  destruct (strip_prefix p (String c (r +:+ m))); [reflexivity|exact IH].
Qed.

Lemma includes_end (p : string) : includes p p = true.
Proof.
  destruct p as [|c r]; [reflexivity|].
  simpl. rewrite Ascii.eqb_refl.
  replace (strip_prefix r r) with (Some ""); [reflexivity|].
  symmetry. clear c. induction r as [|c r IH]; simpl; [reflexivity|].
  now rewrite Ascii.eqb_refl.
Qed.

Ltac names_part :=
  repeat first [ apply includes_here | apply includes_end | apply includes_skip ].

Lemma not_found_message_names (country openF1Type : string) (year : N) :
  let msg := "Failed to locate session: " +:+ not_found_message country openF1Type year in
  includes msg country = true
  /\ includes msg openF1Type = true
  /\ includes msg (of_N year) = true.
Proof. unfold not_found_message. repeat split; names_part. Qed.

Lemma no_month_message_names (month : js_scalar) (country : string) (year : N) :
  let msg := "Failed to locate session: " +:+ no_month_message month country year in
  includes msg (scalar_toString month) = true
  /\ includes msg country = true
  /\ includes msg (of_N year) = true.
Proof. unfold no_month_message. repeat split; names_part. Qed.

Lemma latest_of_sorted (candidates : list Session.t) :
  candidates <> [] ->
  exists s, last_item (sort_by start_ms candidates) = Some s
            /\ latest_of candidates (Session.session_key s).
Proof.
  intros Hne.
  destruct (last_item_some (sort_by start_ms candidates)) as [s Hs].
  { intros E. apply Hne. apply Permutation_nil.
    rewrite <- E. apply sort_by_perm. }
  exists s. split; [exact Hs|]. exists s. split.
  - apply (sort_by_In start_ms). now apply last_item_In.
  - split; [reflexivity|]. intros s' Hs'.
    apply (last_item_greatest start_ms (sort_by start_ms candidates)).
    + apply sort_by_ascending.
    + exact Hs.
    + now apply sort_by_In.
Qed.

(** C4, the claim fails when the month filter empties the list: the error
    names the month, the country and the year, and not the session type
    that was attempted. *)
Lemma month_error_omits_session_type :
  fst (getSessionKey sample_api 2025 ∅ 2024 "Monza" (Some "Q") (JStr "dec"))
  = Err "Failed to locate session: No sessions found in dec for Italy in year 2024."
  /\ mapSessionType (Some "Q") = "Qualifying"
  /\ includes
       "Failed to locate session: No sessions found in dec for Italy in year 2024."
       "Qualifying" = false.
Proof. repeat split; vm_compute; reflexivity. Qed.

(** C4 (amended): once the country and the session type are resolved,
    [getSessionKey] is decided by the answer of the session query.  A
    non-empty list that survives the optional month filter gives the key
    of a candidate with the latest start.  An empty answer fails with an
    error naming the country, the session type and the year; a list
    emptied by the month filter fails with an error naming the month, the
    country and the year; a failed request fails with its own text. *)
Theorem getSessionKey_latest_or_error (api : Upstream) (currentYear : Z)
    (cache : meetings_cache) (year : N) (location : string)
    (sessionType : option string) (month : js_scalar) :
  let country :=
    match fst (resolveCountryFromHistory (meetings_of api) currentYear cache
                 (Some location)) with
    | Some c => c
    | None => location
    end in
  let openF1Type := mapSessionType sessionType in
  let outcome :=
    fst (getSessionKey api currentYear cache year location sessionType month) in
  match sessions_of api year country openF1Type with
  | Failed text => outcome = Err ("Failed to locate session: " +:+ text)
  | Data sessions =>
      let candidates :=
        if scalar_truthy month then filterByMonth sessions month else sessions in
      match sessions, candidates with
      | [], _ =>
          exists msg, outcome = Err msg
            /\ includes msg country = true
            /\ includes msg openF1Type = true
            /\ includes msg (of_N year) = true
      | _ :: _, [] =>
          exists msg, outcome = Err msg
            /\ includes msg (scalar_toString month) = true
            /\ includes msg country = true
            /\ includes msg (of_N year) = true
      | _ :: _, _ :: _ =>
          exists key, outcome = Ok key /\ latest_of candidates key
      end
  end.
Proof.
  intros country openF1Type outcome. subst outcome. unfold getSessionKey.
  destruct (resolveCountryFromHistory _ _ _ _) as [resolved cache'] eqn:Er.
  simpl in country. fold country. unfold locate_session. fold openF1Type.
  destruct (sessions_of api year country openF1Type) as [text|sessions];
    [reflexivity|].
  destruct sessions as [|s0 rest].
  - simpl. eexists. split; [reflexivity|].
    apply not_found_message_names.
  - cbn [List.length Nat.eqb].
    destruct (scalar_truthy month) eqn:Em; cbn [andb].
    + destruct (filterByMonth (s0 :: rest) month) as [|c0 crest] eqn:Ef.
      * simpl. eexists. split; [reflexivity|]. apply no_month_message_names.
      * cbn [List.length Nat.eqb].
        destruct (latest_of_sorted (c0 :: crest)) as [s [Hs Hl]]; [easy|].
        rewrite Hs. simpl. exists (Session.session_key s). now split.
    + destruct (latest_of_sorted (s0 :: rest)) as [s [Hs Hl]]; [easy|].
      rewrite Hs. simpl. exists (Session.session_key s). now split.
Qed.

(** ** Location map *)

Lemma insert_extends (map : location_map) (k : string) (v : option string) :
  extends map (<[k := v]> map).
Proof.
  intros j Hj. destruct (decide (k = j)) as [->|Hne].
  - rewrite lookup_insert_eq. eauto.
  - now rewrite lookup_insert_ne.
Qed.

Lemma extends_refl (map : location_map) : extends map map.
Proof. intros k H. exact H. Qed.

Lemma extends_trans (a b c : location_map) :
  extends a b -> extends b c -> extends a c.
Proof. intros Hab Hbc k H. apply Hbc, Hab, H. Qed.

Lemma register_meeting_extends (map : location_map) (m : Meeting.t) :
  extends map (register_meeting map m).
Proof.
  unfold register_meeting.
  set (m1 := <[normalizeString (Meeting.country_name m) := _]> map).
  assert (H1 : extends map m1) by apply insert_extends.
  set (m2 := if truthy (Meeting.location m) then _ else m1).
  assert (H2 : extends map m2).
  { subst m2. destruct (truthy _); [|exact H1].
    eapply extends_trans; [exact H1|apply insert_extends]. }
  destruct (Meeting.meeting_name m) as [name|]; [|exact H2].
  destruct (is_empty name); [exact H2|].
  destruct (is_empty (first_token name)).
  - eapply extends_trans; [exact H2|apply insert_extends].
  - eapply extends_trans; [exact H2|].
    eapply extends_trans; apply insert_extends.
Qed.

Lemma register_all_extends (data : list Meeting.t) (map : location_map) :
  extends map (List.fold_left register_meeting data map).
Proof.
  revert map. induction data as [|m r IH]; intros map; simpl.
  - apply extends_refl.
  - eapply extends_trans; [apply register_meeting_extends|apply IH].
Qed.

Lemma Map_of_has_keys (entries : list (string * string)) :
  Forall (fun alias => is_Some (Map_of entries !! fst alias)) entries.
Proof.
  unfold Map_of. generalize (∅ : location_map).
  induction entries as [|kv r IH]; intros acc; [constructor|].
  simpl. constructor.
  - assert (E : forall l (m : location_map), is_Some (m !! fst kv) ->
                  is_Some (List.fold_left
                             (fun m kv => <[fst kv := Some (snd kv)]> m) l m !! fst kv)).
    { induction l as [|x l IHl]; intros m Hm; simpl; [exact Hm|].
      apply IHl. now apply insert_extends. }
    apply E. rewrite lookup_insert_eq. eauto.
  - apply IH.
Qed.

Lemma covers_defaults_extends (small big : location_map) :
  covers_defaults small -> extends small big -> covers_defaults big.
Proof.
  unfold covers_defaults. intros Hs He.
  eapply Forall_impl; [exact Hs|]. intros alias. apply He.
Qed.

Lemma fetchAndBuildLocationMap_covers (cache : meetings_cache) (year : Z)
    (response : option (list Meeting.t)) :
  cache_covers cache ->
  covers_defaults (fst (fetchAndBuildLocationMap cache year response))
  /\ cache_covers (snd (fetchAndBuildLocationMap cache year response)).
Proof.
  intros Hc. unfold fetchAndBuildLocationMap.
  destruct (cache !! year) as [cached|] eqn:E; simpl.
  { split; [eapply Hc; exact E|exact Hc]. }
  assert (Hd : covers_defaults (Map_of default_aliases)) by apply Map_of_has_keys.
  destruct response as [data|]; [|now split].
  destruct (Nat.ltb 0 (List.length data)); [|now split].
  assert (Hm : covers_defaults (List.fold_left register_meeting data (Map_of default_aliases))).
  { eapply covers_defaults_extends; [exact Hd|apply register_all_extends]. }
  simpl. split; [exact Hm|].
  intros y map Hy. destruct (decide (year = y)) as [->|Hne].
  - rewrite lookup_insert_eq in Hy. now injection Hy as <-.
  - rewrite lookup_insert_ne in Hy by exact Hne. eapply Hc; exact Hy.
Qed.

Lemma build_all_covers (calls : list (Z * option (list Meeting.t)))
    (cache : meetings_cache) :
  cache_covers cache -> Forall covers_defaults (build_all cache calls).
Proof.
  revert cache. induction calls as [|[year response] rest IH]; intros cache Hc.
  - constructor.
  - simpl.
    pose proof (fetchAndBuildLocationMap_covers cache year response Hc) as [H1 H2].
    destruct (fetchAndBuildLocationMap cache year response) as [map cache'].
    constructor; [exact H1|]. apply IH. exact H2.
Qed.

Lemma build_all_length (calls : list (Z * option (list Meeting.t)))
    (cache : meetings_cache) :
  List.length (build_all cache calls) = List.length calls.
Proof.
  revert cache. induction calls as [|[year response] rest IH]; intros cache;
    [reflexivity|].
  simpl. destruct (fetchAndBuildLocationMap cache year response) as [map cache'].
  simpl. now rewrite IH.
Qed.

(** C9: from the start of the process on, whatever years are asked for and
    whatever the upstream answers (lists of meetings, empty lists,
    failures), every call of the location map builder returns a map, and
    every map returned has all the keys of the static default table;
    registering a meeting only adds keys to a map. *)
Theorem location_map_superset (calls : list (Z * option (list Meeting.t))) :
  List.length (build_all ∅ calls) = List.length calls
  /\ Forall (fun map => Forall (fun alias => is_Some (map !! fst alias)) default_aliases)
       (build_all ∅ calls)
  /\ forall (map : location_map) (m : Meeting.t),
       dom map ⊆ dom (register_meeting map m).
Proof.
  split; [apply build_all_length|]. split.
  - apply (build_all_covers calls ∅). intros year map H.
    rewrite lookup_empty in H. discriminate.
  - intros map m k. rewrite !elem_of_dom. apply register_meeting_extends.
Qed.

(** ** Lists *)

Lemma find_first {A : Type} (f : A -> bool) (l : list A) :
  match List.find f l with
  | Some x =>
      exists before after,
        l = (before ++ x :: after)%list /\ f x = true
        /\ Forall (fun y => f y = false) before
  | None => Forall (fun y => f y = false) l
  end.
Proof.
  induction l as [|y r IH]; simpl; [constructor|].
  destruct (f y) eqn:E.
  - exists [], r. repeat split; [exact E|constructor].
  - destruct (List.find f r) as [x|].
    + destruct IH as (before & after & -> & Hx & Hb).
      exists (y :: before), after. repeat split; [exact Hx|now constructor].
    + now constructor.
Qed.

(** ** Pit stops and tyres *)

Lemma stint_matches_iff (p : Pit.t) (s : Stint.t) :
  stint_matches p s = true <-> starts_near p s.
Proof.
  unfold stint_matches, starts_near.
  rewrite andb_true_iff, N.eqb_eq, Z.leb_le. reflexivity.
Qed.

Lemma stint_matches_false (p : Pit.t) (l : list Stint.t) :
  Forall (fun s => stint_matches p s = false) l ->
  Forall (fun s => ~ starts_near p s) l.
Proof.
  intros H. eapply Forall_impl; [exact H|]. intros s Hs Hn.
  apply stint_matches_iff in Hn. congruence.
Qed.

Lemma tyre_fitted_joined (stints : option (list Stint.t)) (p : Pit.t) :
  fitted stints p (or_Unknown (tyre_fitted stints p)).
Proof.
  destruct stints as [stints|]; [|reflexivity]. simpl.
  pose proof (find_first (stint_matches p) stints) as H.
  destruct (List.find (stint_matches p) stints) as [stint|].
  - destruct H as (before & after & -> & Hm & Hb). left.
    exists before, stint, after. repeat split.
    + now apply stint_matches_iff in Hm as [? ?].
    + now apply stint_matches_iff in Hm as [? ?].
    + now apply stint_matches_false.
  - right. split; [now apply stint_matches_false|reflexivity].
Qed.

(** C8, the claim fails for a stop inside a stint: the lap range of the
    stint of laps 1 to 20 contains lap 10, yet the stop on lap 10 is
    joined to no stint and reports "Unknown". *)
Lemma pit_stop_inside_stint_unmatched :
  stint_covers stop_on_lap_10 long_stint = true
  /\ List.map row_tyres_fitted
       (pitstops_summary [stop_on_lap_10] [ver] (Some [long_stint]) JNull)
     = ["Unknown"].
Proof. split; reflexivity. Qed.

(** C8 (amended): the summary has one row per stop of the requested
    driver (all stops without a driver filter) and never fails.  The
    tyres of a row are the compound of the first stint of the same
    driver whose first lap is within one lap of the stop ("Unknown" if
    that stint has no compound), and "Unknown" when there is no such
    stint or when the stints could not be fetched. *)
Theorem pitstops_summary_joins_stint_start (pits : list Pit.t)
    (drivers : list Driver.t) (stints : option (list Stint.t)) (driver : js_scalar) :
  targetPits_of pits drivers JNull = pits
  /\ Forall2
       (fun p row =>
          row_lap row = Pit.lap_number p
          /\ row_duration row = Pit.pit_duration p
          /\ fitted stints p (row_tyres_fitted row))
       (targetPits_of pits drivers driver)
       (pitstops_summary pits drivers stints driver).
Proof.
  split; [reflexivity|]. unfold pitstops_summary.
  induction (targetPits_of pits drivers driver) as [|p r IH]; simpl.
  - constructor.
  - constructor; [|exact IH]. simpl. repeat split. apply tyre_fitted_joined.
Qed.

(** ** Driver resolver *)

Lemma nonempty_iff (s : string) : negb (is_empty s) = true <-> s <> "".
Proof. destruct s; simpl; split; congruence. Qed.

Lemma driver_matches_iff (needle : string) (d : Driver.t) :
  driver_matches needle d = true <-> matches_token needle d.
Proof.
  unfold driver_matches, matches_token.
  rewrite !orb_true_iff, andb_true_iff, negb_true_iff, N.eqb_neq, String.eqb_eq.
  destruct (Driver.name_acronym d) as [a|], (Driver.last_name d) as [l|],
    (Driver.full_name d) as [f|];
    rewrite ?andb_true_iff, ?nonempty_iff, ?String.eqb_eq;
    split;
    try (intros [[[H|H]|H]|H]; try discriminate H;
         [ left; exists a; now destruct H
         | right; left; exact H
         | right; right; left; exists l; now destruct H
         | right; right; right; exists f; now destruct H ]);
    try (intros [[[H|H]|H]|H]; try discriminate H;
         first [ left; exists a; now destruct H
               | right; left; exact H
               | right; right; left; exists l; now destruct H
               | right; right; right; exists f; now destruct H ]);
    intros [(a' & Ha & H)|[H|[(l' & Hl & H)|(f' & Hf & H)]]];
    try discriminate;
    try (injection Ha as <-); try (injection Hl as <-); try (injection Hf as <-);
    tauto.
Qed.

Lemma driver_matches_none (needle : string) (l : list Driver.t) :
  Forall (fun d => driver_matches needle d = false) l ->
  Forall (fun d => ~ matches_token needle d) l.
Proof.
  intros H. eapply Forall_impl; [exact H|]. intros d Hd Hn.
  apply driver_matches_iff in Hn. congruence.
Qed.

(** C5, the claim fails for the empty token: the surname of every roster
    entry contains it, so the first entry should answer; the resolver
    returns nothing without looking at the roster. *)
Lemma empty_token_resolves_to_nothing :
  resolveDriverNumber [ver; str] (JStr "") = None
  /\ resolve_as_claimed [ver; str] (JStr "") = Some 1%N.
Proof. split; reflexivity. Qed.

(** C5 (amended): for a token that is not empty, the resolver lower-cases
    and trims it and returns the car number of the first roster entry
    that has a non-empty acronym equal to it, a non-zero car number whose
    decimal form is equal to it, or a non-empty surname or full name that
    contains it, all compared in lower case; it returns nothing, and does
    not fail, when no entry does.  With the entry of VER (number 1,
    Verstappen, Max Verstappen) first in the roster, "ver", "1",
    "verstappen" and "Max Verstappen" resolve to 1.  An absent or empty
    token resolves to nothing. *)
Theorem resolveDriverNumber_first_match (drivers : list Driver.t)
    (token : js_scalar) (Htoken : scalar_truthy token = true) :
  match resolveDriverNumber drivers token with
  | Some n =>
      exists before d after,
        drivers = (before ++ d :: after)%list
        /\ Driver.driver_number d = n
        /\ matches_token (trim (toLowerCase (scalar_toString token))) d
        /\ Forall (fun d' => ~ matches_token (trim (toLowerCase (scalar_toString token))) d')
             before
  | None =>
      Forall (fun d => ~ matches_token (trim (toLowerCase (scalar_toString token))) d)
        drivers
  end
  /\ (let entry position :=
        Driver.mk 1 (Some "VER") (Some "Verstappen") (Some "Max Verstappen") position in
      forall position,
        resolveDriverNumber (entry position :: drivers) (JStr "ver") = Some 1%N
        /\ resolveDriverNumber (entry position :: drivers) (JStr "1") = Some 1%N
        /\ resolveDriverNumber (entry position :: drivers) (JNum 1) = Some 1%N
        /\ resolveDriverNumber (entry position :: drivers) (JStr "verstappen") = Some 1%N
        /\ resolveDriverNumber (entry position :: drivers) (JStr "Max Verstappen")
           = Some 1%N)
  /\ resolveDriverNumber drivers JNull = None
  /\ resolveDriverNumber drivers (JStr "") = None.
Proof.
  split.
  - unfold resolveDriverNumber. rewrite Htoken. simpl negb. cbv iota.
    fold (driver_needle token).
    pose proof (find_first (driver_matches (driver_needle token)) drivers) as H.
    destruct (List.find _ drivers) as [d|].
    + destruct H as (before & after & -> & Hm & Hb).
      exists before, d, after. repeat split.
      * now apply driver_matches_iff.
      * now apply driver_matches_none.
    + now apply driver_matches_none.
  - repeat split; reflexivity.
Qed.

Lemma resolveDriverNumber_first_match_witness :
  scalar_truthy (JStr " Stroll ") = true
  /\ exists before d after,
       [ver; str] = (before ++ d :: after)%list
       /\ Driver.driver_number d = 18%N
       /\ matches_token "stroll" d
       /\ Forall (fun d' => ~ matches_token "stroll" d') before.
Proof.
  split; [reflexivity|].
  exact (proj1 (resolveDriverNumber_first_match [ver; str] (JStr " Stroll ") eq_refl)).
Defined.

(** ** Race control: the car number pattern *)

Lemma strip_prefix_sound (p s rest : string) :
  strip_prefix p s = Some rest -> s = p +:+ rest.
Proof.
  revert s. induction p as [|a p IH]; intros s; simpl.
  - now intros [= ->].
  - destruct s as [|b s]; [discriminate|].
    destruct (Ascii.eqb a b) eqn:E; [|discriminate].
    apply Ascii.eqb_eq in E as ->. intros H. now rewrite (IH s H).
Qed.

Lemma last_char_cons (c : ascii) (r : string) :
  last_char (String c r)
  = Some (match last_char r with Some x => x | None => c end).
Proof.
  revert c. induction r as [|b r IH]; intros c; [reflexivity|].
  change (last_char (String c (String b r))) with (last_char (String b r)).
  now rewrite IH.
Qed.

Lemma match_here_sound (prev : option ascii) (lit s : string) :
  match_here prev lit s = true ->
  exists post,
    s = lit +:+ post
    /\ word_boundary prev (head_char s) = true
    /\ word_boundary (char_before prev lit) (head_char post) = true.
Proof.
  unfold match_here. intros H. apply andb_true_iff in H as [Hb H].
  destruct (strip_prefix lit s) as [rest|] eqn:E; [|discriminate].
  exists rest. split; [now apply strip_prefix_sound|]. now split.
Qed.

Lemma search_from_sound (lit s : string) (prev : option ascii) :
  search_from prev lit s = true ->
  exists pre post,
    s = pre +:+ lit +:+ post
    /\ word_boundary (char_before prev pre) (head_char (lit +:+ post)) = true
    /\ word_boundary (char_before (char_before prev pre) lit) (head_char post) = true.
Proof.
  revert prev. induction s as [|c r IH]; intros prev H.
  - simpl in H. rewrite orb_false_r in H.
    apply match_here_sound in H as (post & E & H1 & H2).
    exists "", post. rewrite E in H1. repeat split; assumption.
  - simpl in H. apply orb_true_iff in H as [H|H].
    + apply match_here_sound in H as (post & E & H1 & H2).
      exists "", post. rewrite E in H1. repeat split; assumption.
    + apply IH in H as (pre & post & E & H1 & H2).
      exists (String c pre), post.
      assert (Eb : char_before prev (String c pre) = char_before (Some c) pre).
      { unfold char_before. rewrite last_char_cons. now destruct (last_char pre). }
      rewrite Eb. repeat split; [now rewrite E|assumption|assumption].
Qed.

Lemma digits_end_in_word_char (d : Decimal.uint) (c : ascii) :
  is_word c = true ->
  word_char (last_char (String c (NilEmpty.string_of_uint d))) = true.
Proof.
  revert c.
  induction d as [|d IH|d IH|d IH|d IH|d IH|d IH|d IH|d IH|d IH|d IH];
    intros c Hc; [simpl; exact Hc|..];
    cbn [NilEmpty.string_of_uint];
    match goal with
    | |- context [String c (String ?k ?r)] =>
        change (last_char (String c (String k r))) with (last_char (String k r))
    end;
    apply IH; reflexivity.
Qed.

Lemma car_pattern_ends_in_word_char (n : N) :
  word_char (last_char ("car " +:+ of_N n)) = true.
Proof.
  unfold of_N, NilZero.string_of_uint.
  destruct (N.to_uint n) as [|d|d|d|d|d|d|d|d|d|d];
    [reflexivity|..];
    cbn [NilEmpty.string_of_uint String.append];
    repeat match goal with
    | |- context [last_char (String ?a (String ?k ?r))] =>
        change (last_char (String a (String k r))) with (last_char (String k r))
    end;
    apply digits_end_in_word_char; reflexivity.
Qed.

Lemma car_regex_whole_word (msgLower : string) (driverNum : N) :
  car_regex_matches msgLower driverNum = true ->
  exists pre post,
    msgLower = pre +:+ "car " +:+ of_N driverNum +:+ post
    /\ word_char (last_char pre) = false
    /\ word_char (head_char post) = false.
Proof.
  unfold car_regex_matches. intros H.
  apply search_from_sound in H as (pre & post & E & H1 & H2).
  exists pre, post. split; [exact E|]. split.
  - change (head_char (("car " +:+ of_N driverNum) +:+ post)) with (Some "c"%char) in H1.
    unfold word_boundary, char_before in H1.
    destruct (last_char pre); simpl in *; [|reflexivity].
    now destruct (is_word a).
  - pose proof (car_pattern_ends_in_word_char driverNum) as Hw.
    unfold word_boundary, char_before in H2.
    destruct (last_char ("car " +:+ of_N driverNum)); [|discriminate].
    simpl in Hw, H2. rewrite Hw in H2. now destruct (word_char (head_char post)).
Qed.

(** ** Race control: the strict driver filter *)




Lemma strict_keep_undirected (driverNum : N) (dAcronym dName : string) (m : Message.t) :
  Message.driver_number m = None ->
  strict_keep driverNum dAcronym dName m
  = car_regex_matches (msgLower_of m) driverNum
    || includes (msgLower_of m) ("(" +:+ dAcronym +:+ ")")
    || includes (msgLower_of m) dName
    || isGlobalEvent m.
Proof.
  intros Hm. unfold strict_keep, isTargetDriverEvent. rewrite Hm.
  cbn [N_truthy negb orb].
  now destruct (_ || _ || _).
Qed.

Lemma summary_under_driver_filter (drivers : list Driver.t)
    (laps_of : N -> Z -> list Lap.t) (messages : list Message.t)
    (token : js_scalar) (d : Driver.t) (acronym surname : string) :
  scalar_truthy token = true ->
  List.find (driver_matches (driver_needle token)) drivers = Some d ->
  Driver.name_acronym d = Some acronym ->
  Driver.last_name d = Some surname ->
  race_control_summary drivers laps_of messages (Body.mk token None None None)
  = Ok (sort_by Message.date
          (List.filter
             (strict_keep (Driver.driver_number d) (toLowerCase acronym)
                (toLowerCase surname))
             messages)).
Proof.
  intros Ht Hf Ha Hl. unfold race_control_summary, filter_by_driver.
  cbn [Body.driver]. rewrite Ht, Hf, Ha, Hl. reflexivity.
Qed.

(** C2, the claim fails for an undirected message about the target
    driver: "CAR 1 (VER) ... TRACK LIMITS" carries no driver number and is
    no session-wide event, yet it is retained under the filter for "1". *)
Lemma undirected_driver_message_is_retained :
  Message.driver_number track_limits_message = None
  /\ isGlobalEvent track_limits_message = false
  /\ race_control_summary [ver; str] no_laps [track_limits_message] (body_for "1")
     = Ok [track_limits_message].
Proof. repeat split; vm_compute; reflexivity. Qed.

(** C2 (amended): under a driver filter that resolves to a roster entry
    with an acronym and a surname, the handler returns a list, and a
    message without a driver number is in it if and only if its text
    names the target driver (car number as a whole word, acronym in
    parentheses, or surname) or it is a session-wide event: a global
    keyword in the text, a global category, or a flag category with a
    green, chequered, red or yellow flag.  An undirected "SafetyCar"
    message is retained under every such filter; the undirected "BLUE
    FLAG" notice is left out under the filter for "1". *)
Theorem undirected_message_retention (drivers : list Driver.t)
    (laps_of : N -> Z -> list Lap.t) (messages : list Message.t)
    (token : js_scalar) (d : Driver.t) (acronym surname : string)
    (Htoken : scalar_truthy token = true)
    (Hfound : List.find (driver_matches (driver_needle token)) drivers = Some d)
    (Hacronym : Driver.name_acronym d = Some acronym)
    (Hsurname : Driver.last_name d = Some surname) :
  exists out,
    race_control_summary drivers laps_of messages (Body.mk token None None None) = Ok out
    /\ (forall m, Message.driver_number m = None ->
          (In m out <->
           In m messages
           /\ (car_regex_matches (msgLower_of m) (Driver.driver_number d) = true
               \/ includes (msgLower_of m) ("(" +:+ toLowerCase acronym +:+ ")") = true
               \/ includes (msgLower_of m) (toLowerCase surname) = true
               \/ isGlobalEvent m = true)))
    /\ (forall m category, In m messages -> Message.driver_number m = None ->
          Message.category m = Some category -> toLowerCase category = "safetycar" ->
          In m out)
    /\ race_control_summary [ver; str] no_laps
         [blue_flag_message; safety_car_message] (body_for "1")
       = Ok [safety_car_message].
Proof.
  eexists.
  split; [exact (summary_under_driver_filter drivers laps_of messages token d
                   acronym surname Htoken Hfound Hacronym Hsurname)|].
  split; [|split].
  - intros m Hm. rewrite sort_by_In, filter_In, (strict_keep_undirected _ _ _ _ Hm).
    rewrite !orb_true_iff. tauto.
  - intros m category Hin Hm Hc Hl.
    rewrite sort_by_In, filter_In, (strict_keep_undirected _ _ _ _ Hm).
    split; [exact Hin|]. unfold isGlobalEvent, lower_in. rewrite Hc, Hl.
    cbn [mem globalCats List.existsb String.eqb Ascii.eqb Bool.eqb orb andb].
    now rewrite !orb_true_r.
  - vm_compute. reflexivity.
Qed.

Lemma undirected_message_retention_witness :
  scalar_truthy (JStr "18") = true
  /\ List.find (driver_matches (driver_needle (JStr "18"))) [ver; str] = Some str
  /\ Driver.name_acronym str = Some "STR"
  /\ Driver.last_name str = Some "Stroll"
  /\ exists out,
       race_control_summary [ver; str] no_laps
         [track_limits_message; safety_car_message] (Body.mk (JStr "18") None None None)
       = Ok out
       /\ In safety_car_message out.
Proof.
  repeat split; try reflexivity.
  destruct (undirected_message_retention [ver; str] no_laps
              [track_limits_message; safety_car_message] (JStr "18") str "STR" "Stroll"
              eq_refl eq_refl eq_refl eq_refl) as (out & Hout & _ & Hsc & _).
  exists out. split; [exact Hout|].
  apply (Hsc safety_car_message "SafetyCar"); try reflexivity. right. now left.
Defined.

(** ** Position maps *)

Lemma posMap_get_set (m : posMap) (k k' : N) (v : Z) :
  posMap_get (posMap_set k v m) k' = if N.eqb k' k then Some v else posMap_get m k'.
Proof.
  induction m as [|[k0 v0] r IH]; simpl.
  - reflexivity.
  - destruct (N.eqb k k0) eqn:E0.
    + apply N.eqb_eq in E0 as <-. simpl. now destruct (N.eqb k' k).
    + destruct (N.ltb k k0); simpl.
      * reflexivity.
      * rewrite IH. destruct (N.eqb k' k0) eqn:E1; [|reflexivity].
        apply N.eqb_eq in E1 as ->.
        destruct (N.eqb k0 k) eqn:E2; [|reflexivity].
        apply N.eqb_eq in E2 as ->. now rewrite N.eqb_refl in E0.
Qed.

Lemma assign_positions_get (entries : list (N * Z)) (index : Z) (m : posMap) (d : N) :
  posMap_get (assign_positions index entries m) d
  = match rank_from index (List.map fst entries) d with
    | Some p => Some p
    | None => posMap_get m d
    end.
Proof.
  revert index m. induction entries as [|e r IH]; intros index m; simpl.
  - reflexivity.
  - rewrite IH, posMap_get_set.
    destruct (rank_from (index + 1) (List.map fst r) d); [reflexivity|].
    now destruct (N.eqb d (fst e)).
Qed.

Lemma getLeaderboard_get (allLaps : list Lap.t) (lapNum : Z) (d : N) :
  posMap_get (getLeaderboard allLaps lapNum) d = position_at allLaps lapNum d.
Proof.
  unfold getLeaderboard, position_at, running_order.
  rewrite assign_positions_get. now destruct (rank_from _ _ _).
Qed.

Lemma Object_keys_In (m : posMap) (d : N) :
  In d (Object_keys m) <-> posMap_get m d <> None.
Proof.
  unfold Object_keys. induction m as [|[k v] r IH]; simpl.
  - split; [intros []|congruence].
  - destruct (N.eqb d k) eqn:E.
    + apply N.eqb_eq in E as ->. split; [congruence|now left].
    + apply N.eqb_neq in E. rewrite <- IH. split; [intros [H|H]|intros H].
      * congruence.
      * exact H.
      * now right.
Qed.

Lemma collect_In {A B : Type} (f : A -> option B) (l : list A) (y : B) :
  In y (collect f l) <-> exists x, In x l /\ f x = Some y.
Proof.
  induction l as [|x r IH]; simpl.
  - split; [intros []|intros (x & [] & _)].
  - destruct (f x) as [b|] eqn:E; simpl; rewrite IH; split.
    + intros [<-|(x' & Hx & Hf)]; [exists x; auto|exists x'; auto].
    + intros (x' & [<-|Hx] & Hf); [left; congruence|right; eauto].
    + intros (x' & Hx & Hf). exists x'; auto.
    + intros (x' & [<-|Hx] & Hf); [congruence|eauto].
Qed.

Lemma rank_from_above (order : list N) (index : Z) (d : N) (p : Z) :
  rank_from index order d = Some p -> (index < p)%Z.
Proof.
  revert index. induction order as [|a r IH]; intros index; simpl; [discriminate|].
  destruct (rank_from (index + 1) r d) as [q|] eqn:E.
  - intros [= <-]. apply IH in E. lia.
  - destruct (N.eqb d a); [intros [= <-]; lia|discriminate].
Qed.

(** The rank is the place in the running order, counted from one. *)
Lemma rank_from_place (order : list N) (index : Z) (d : N) (p : Z) :
  rank_from index order d = Some p ->
  exists before after,
    order = (before ++ d :: after)%list
    /\ p = (index + Z.of_nat (List.length before) + 1)%Z
    /\ ~ In d after.
Proof.
  revert index. induction order as [|a r IH]; intros index; simpl; [discriminate|].
  destruct (rank_from (index + 1) r d) as [q|] eqn:E.
  - intros [= <-]. apply IH in E as (before & after & -> & Hq & Hn).
    exists (a :: before), after. repeat split; [|exact Hn].
    simpl List.length. lia.
  - destruct (N.eqb d a) eqn:Ea; [|discriminate]. intros [= <-].
    apply N.eqb_eq in Ea as <-. exists [], r. repeat split; [simpl; lia|].
    intros Hin. clear IH. revert index E.
    induction r as [|b r IHr]; intros index E; [destruct Hin|].
    simpl in E. destruct (rank_from (index + 1 + 1) r d) eqn:E2; [discriminate|].
    destruct (N.eqb d b) eqn:Eb; [discriminate|].
    destruct Hin as [->|Hin]; [now rewrite N.eqb_refl in Eb|].
    eapply IHr; eassumption.
Qed.

Lemma rank_from_present (order : list N) (index : Z) (d : N) :
  In d order -> exists p, rank_from index order d = Some p.
Proof.
  revert index. induction order as [|a r IH]; intros index; simpl; [intros []|].
  intros [->|Hin].
  - destruct (rank_from (index + 1) r d); [eauto|]. rewrite N.eqb_refl. eauto.
  - destruct (IH (index + 1)%Z Hin) as [p ->]. eauto.
Qed.

(** ** Position changes between two laps *)

Lemma position_at_place (allLaps : list Lap.t) (lapNum : Z) (d : N) (p : Z) :
  position_at allLaps lapNum d = Some p ->
  exists before after,
    running_order allLaps lapNum = (before ++ d :: after)%list
    /\ p = (Z.of_nat (List.length before) + 1)%Z
    /\ ~ In d after.
Proof.
  intros H. apply rank_from_place in H as (before & after & E & Hp & Hn).
  exists before, after. repeat split; [exact E|lia|exact Hn].
Qed.

Lemma change_of_some (drivers : list Driver.t) (allLaps : list Lap.t)
    (lapNum : Z) (d : N) (c : Change.t) :
  change_of drivers (getLeaderboard allLaps (lapNum - 1))
    (getLeaderboard allLaps lapNum) d = Some c ->
  Change.driver_number c = d
  /\ position_at allLaps (lapNum - 1) d = Some (Change.lap_start_pos c)
  /\ position_at allLaps lapNum d = Some (Change.lap_end_pos c)
  /\ Change.positions_gained c = (Change.lap_start_pos c - Change.lap_end_pos c)%Z.
Proof.
  unfold change_of. rewrite !getLeaderboard_get.
  destruct (position_at allLaps (lapNum - 1) d) as [p|]; [|discriminate].
  destruct (position_at allLaps lapNum d) as [q|]; [|discriminate].
  destruct (negb (Z.eqb p 0) && negb (Z.eqb q 0)); [|discriminate].
  intros [= <-]. simpl. now repeat split.
Qed.

Lemma change_of_present (drivers : list Driver.t) (allLaps : list Lap.t)
    (lapNum : Z) (d : N) (p q : Z) :
  position_at allLaps (lapNum - 1) d = Some p ->
  position_at allLaps lapNum d = Some q ->
  exists c,
    change_of drivers (getLeaderboard allLaps (lapNum - 1))
      (getLeaderboard allLaps lapNum) d = Some c
    /\ Change.driver_number c = d
    /\ Change.positions_gained c = (p - q)%Z.
Proof.
  intros Hp Hq. unfold change_of. rewrite !getLeaderboard_get, Hp, Hq.
  apply rank_from_above in Hp, Hq.
  replace (Z.eqb p 0) with false by (symmetry; apply Z.eqb_neq; lia).
  replace (Z.eqb q 0) with false by (symmetry; apply Z.eqb_neq; lia).
  simpl. eexists. split; [reflexivity|]. now split.
Qed.

Lemma lap_changes_In (drivers : list Driver.t) (allLaps : list Lap.t)
    (lapNum : Z) (c : Change.t) :
  In c (lap_changes drivers allLaps lapNum) ->
  position_at allLaps (lapNum - 1) (Change.driver_number c) = Some (Change.lap_start_pos c)
  /\ position_at allLaps lapNum (Change.driver_number c) = Some (Change.lap_end_pos c)
  /\ Change.positions_gained c = (Change.lap_start_pos c - Change.lap_end_pos c)%Z.
Proof.
  unfold lap_changes. intros H. apply collect_In in H as (d & _ & Hc).
  apply change_of_some in Hc as (<- & H1 & H2 & H3). now repeat split.
Qed.

Lemma lap_changes_complete (drivers : list Driver.t) (allLaps : list Lap.t)
    (lapNum : Z) (d : N) (p q : Z) :
  position_at allLaps (lapNum - 1) d = Some p ->
  position_at allLaps lapNum d = Some q ->
  exists c, In c (lap_changes drivers allLaps lapNum)
            /\ Change.driver_number c = d
            /\ Change.positions_gained c = (p - q)%Z.
Proof.
  intros Hp Hq.
  destruct (change_of_present drivers allLaps lapNum d p q Hp Hq) as (c & Hc & Hd & Hg).
  exists c. split; [|now split]. unfold lap_changes. apply collect_In.
  exists d. split; [|exact Hc]. apply Object_keys_In.
  rewrite getLeaderboard_get, Hq. discriminate.
Qed.

Lemma rank_in_three (a b c : N) :
  a <> b -> a <> c -> b <> c ->
  rank_from 0 [a; b; c] a = Some 1%Z
  /\ rank_from 0 [a; b; c] b = Some 2%Z
  /\ rank_from 0 [a; b; c] c = Some 3%Z.
Proof.
  intros Hab Hac Hbc. simpl. rewrite !N.eqb_refl.
  apply N.eqb_neq in Hab, Hac, Hbc.
  rewrite Hab, Hac, Hbc. now repeat split.
Qed.

(** C3: for a lap above 1 the handler returns the changes of that lap.
    Each of the two laps is ranked ascending by finish time (start of the
    lap plus its duration) over its timed laps, and the position of a
    driver is the place in that order, counted from one.  A driver has an
    entry only with a position on both laps, and the entry reports the
    position on the lap before minus the position on the lap; without a
    driver filter every such driver has an entry.  With the order A, B, C
    on the lap before and B, A, C on the lap, A gains -1, B gains 1 and C
    gains 0.  For a lap of 1 or less the handler fails. *)
Theorem position_change_between_laps (lapNum : Z) (driver : js_scalar)
    (allLaps : list Lap.t) (drivers : list Driver.t)
    (results : list SessionResult.t) (Hlap : (1 < lapNum)%Z) :
  (forall n,
      ascending snd (ranking allLaps n)
      /\ Permutation (ranking allLaps n)
           (List.map (fun l => (Lap.driver_number l, finish_time l))
              (List.filter (lap_is_timed n) allLaps))
      /\ forall d p, position_at allLaps n d = Some p ->
           exists before after,
             running_order allLaps n = (before ++ d :: after)%list
             /\ p = (Z.of_nat (List.length before) + 1)%Z
             /\ ~ In d after)
  /\ (exists changes,
        position_change_summary (Some lapNum) driver allLaps drivers results
        = Ok (LapChanges lapNum changes)
        /\ (forall c, In c changes ->
              position_at allLaps (lapNum - 1) (Change.driver_number c)
              = Some (Change.lap_start_pos c)
              /\ position_at allLaps lapNum (Change.driver_number c)
                 = Some (Change.lap_end_pos c)
              /\ Change.positions_gained c
                 = (Change.lap_start_pos c - Change.lap_end_pos c)%Z)
        /\ (scalar_truthy driver = false ->
            forall d p q,
              position_at allLaps (lapNum - 1) d = Some p ->
              position_at allLaps lapNum d = Some q ->
              exists c, In c changes
                        /\ Change.driver_number c = d
                        /\ Change.positions_gained c = (p - q)%Z)
        /\ (forall a b c,
              a <> b -> a <> c -> b <> c ->
              running_order allLaps (lapNum - 1) = [a; b; c] ->
              running_order allLaps lapNum = [b; a; c] ->
              forall e, In e changes ->
                (Change.driver_number e = a -> Change.positions_gained e = (-1)%Z)
                /\ (Change.driver_number e = b -> Change.positions_gained e = 1%Z)
                /\ (Change.driver_number e = c -> Change.positions_gained e = 0%Z)))
  /\ (forall n, n <> 0%Z -> (n <= 1)%Z ->
        position_change_summary (Some n) driver allLaps drivers results
        = Err "Cannot calculate changes for Lap 1.").
Proof.
  split; [|split].
  - intros n. split; [apply sort_by_ascending|].
    split; [apply sort_by_perm|]. intros d p. apply position_at_place.
  - unfold position_change_summary. cbn [Z_truthy].
    replace (Z.eqb lapNum 0) with false by (symmetry; apply Z.eqb_neq; lia).
    replace (Z.leb lapNum 1) with false by (symmetry; apply Z.leb_gt; lia).
    cbn [negb]. eexists. split; [reflexivity|].
    assert (Hsub : forall c,
               In c (sort_by (fun c => (- Change.positions_gained c)%Z)
                       (if scalar_truthy driver
                        then match resolveDriverNumber drivers driver with
                             | Some targetNum =>
                                 if N.eqb targetNum 0
                                 then lap_changes drivers allLaps lapNum
                                 else List.filter
                                        (fun c => N.eqb (Change.driver_number c) targetNum)
                                        (lap_changes drivers allLaps lapNum)
                             | None => lap_changes drivers allLaps lapNum
                             end
                        else lap_changes drivers allLaps lapNum)) ->
               In c (lap_changes drivers allLaps lapNum)).
    { intros c Hc. apply sort_by_In in Hc.
      destruct (scalar_truthy driver); [|exact Hc].
      destruct (resolveDriverNumber drivers driver) as [t|]; [|exact Hc].
      destruct (N.eqb t 0); [exact Hc|]. now apply filter_In in Hc as [? _]. }
    split; [|split].
    + intros c Hc. apply (lap_changes_In drivers). now apply Hsub.
    + intros Hd d p q Hp Hq. rewrite Hd.
      destruct (lap_changes_complete drivers allLaps lapNum d p q Hp Hq)
        as (c & Hc & H1 & H2).
      exists c. split; [now apply sort_by_In|now split].
    + intros a b c Hab Hac Hbc Hprev Hcur e He.
      apply Hsub in He. apply lap_changes_In in He as (H1 & H2 & H3).
      unfold position_at in H1, H2. rewrite Hprev in H1. rewrite Hcur in H2.
      destruct (rank_in_three a b c Hab Hac Hbc) as (Pa & Pb & Pc).
      destruct (rank_in_three b a c) as (Qb & Qa & Qc); [congruence..|].
      repeat split; intros Ee; rewrite Ee in H1, H2; rewrite H3.
      * rewrite Pa in H1. rewrite Qa in H2. injection H1 as <-. injection H2 as <-.
        reflexivity.
      * rewrite Pb in H1. rewrite Qb in H2. injection H1 as <-. injection H2 as <-.
        reflexivity.
      * rewrite Pc in H1. rewrite Qc in H2. injection H1 as <-. injection H2 as <-.
        reflexivity.
  - intros n Hn Hle. unfold position_change_summary. cbn [Z_truthy].
    replace (Z.eqb n 0) with false by (symmetry; now apply Z.eqb_neq).
    cbn [negb]. replace (Z.leb n 1) with true by (symmetry; now apply Z.leb_le).
    reflexivity.
Qed.

Lemma position_change_between_laps_witness :
  (1 < 3)%Z
  /\ running_order sample_laps 2 = [1; 18; 44]%N
  /\ running_order sample_laps 3 = [18; 1; 44]%N
  /\ exists changes,
       position_change_summary (Some 3%Z) JNull sample_laps [ver; str] []
       = Ok (LapChanges 3 changes)
       /\ forall e, In e changes ->
            (Change.driver_number e = 1%N -> Change.positions_gained e = (-1)%Z)
            /\ (Change.driver_number e = 18%N -> Change.positions_gained e = 1%Z)
            /\ (Change.driver_number e = 44%N -> Change.positions_gained e = 0%Z).
Proof.
  split; [reflexivity|]. split; [reflexivity|]. split; [reflexivity|].
  destruct (position_change_between_laps 3 JNull sample_laps [ver; str] [] eq_refl)
    as (_ & (changes & Hsum & _ & _ & Hex) & _).
  exists changes. split; [exact Hsum|].
  apply (Hex 1%N 18%N 44%N); try discriminate; reflexivity.
Defined.

(** * Further properties of the code *)

(** ** Case and white space *)

Lemma map_chars_compose (f g : ascii -> ascii) (s : string) :
  map_chars f (map_chars g s) = map_chars (fun c => f (g c)) s.
Proof. induction s as [|c r IH]; simpl; [reflexivity|]. now rewrite IH. Qed.

Lemma map_chars_ext (f g : ascii -> ascii) (s : string) :
  (forall c, f c = g c) -> map_chars f s = map_chars g s.
Proof.
  intros H. induction s as [|c r IH]; simpl; [reflexivity|]. now rewrite H, IH.
Qed.

Lemma is_empty_map_chars (f : ascii -> ascii) (s : string) :
  is_empty (map_chars f s) = is_empty s.
Proof. now destruct s. Qed.

Lemma lower_of_upper (s : string) : toLowerCase (toUpperCase s) = toLowerCase s.
Proof.
  unfold toLowerCase, toUpperCase. rewrite map_chars_compose.
  apply map_chars_ext. intros c. each_char c.
Qed.

Lemma upper_of_lower (s : string) : toUpperCase (toLowerCase s) = toUpperCase s.
Proof.
  unfold toLowerCase, toUpperCase. rewrite map_chars_compose.
  apply map_chars_ext. intros c. each_char c.
Qed.

Lemma trimStart_map (f : ascii -> ascii) (s : string) :
  (forall c, is_space (f c) = is_space c) ->
  trimStart (map_chars f s) = map_chars f (trimStart s).
Proof.
  intros Hf. induction s as [|c r IH]; simpl; [reflexivity|].
  rewrite Hf. now destruct (is_space c).
Qed.

Lemma trimEnd_map (f : ascii -> ascii) (s : string) :
  (forall c, is_space (f c) = is_space c) ->
  trimEnd (map_chars f s) = map_chars f (trimEnd s).
Proof.
  intros Hf. induction s as [|c r IH]; simpl; [reflexivity|].
  rewrite IH, Hf. destruct (trimEnd r); simpl; [now destruct (is_space c)|reflexivity].
Qed.

Lemma trim_map (f : ascii -> ascii) (s : string) :
  (forall c, is_space (f c) = is_space c) ->
  trim (map_chars f s) = map_chars f (trim s).
Proof.
  intros Hf. unfold trim. now rewrite trimStart_map, trimEnd_map.
Qed.

Lemma upper_keeps_space (c : ascii) : is_space (upper_char c) = is_space c.
Proof. each_char c. Qed.

Lemma lower_keeps_space (c : ascii) : is_space (lower_char c) = is_space c.
Proof. each_char c. Qed.

(** The location normalizer does not see the case of the letters of an
    ASCII text. *)
Theorem normalizeString_ignores_case (s : string)
    (Hascii : all_chars is_ascii s = true) :
  normalizeString (Some (toLowerCase s)) = normalizeString (Some s)
  /\ normalizeString (Some (toUpperCase s)) = normalizeString (Some s).
Proof.
  assert (H : forall f, (forall c, upper_char (dash_to_space (f c))
                                   = upper_char (dash_to_space c)) ->
                        normalizeString (Some (map_chars f s)) = normalizeString (Some s)).
  { intros f Hf. unfold normalizeString. rewrite is_empty_map_chars.
    destruct (is_empty s); [reflexivity|].
    unfold toUpperCase. rewrite !map_chars_compose. do 2 f_equal.
    now apply map_chars_ext. }
  split; apply H; intros c; each_char c.
Qed.

Lemma normalizeString_ignores_case_witness :
  all_chars is_ascii "Abu_Dhabi" = true
  /\ normalizeString (Some "abu_dhabi") = normalizeString (Some "Abu_Dhabi")
  /\ normalizeString (Some "ABU_DHABI") = normalizeString (Some "Abu_Dhabi").
Proof.
  split; [reflexivity|].
  exact (normalizeString_ignores_case "Abu_Dhabi" eq_refl).
Defined.

(** ** Session types *)

(** [mapSessionType] always answers with a session name of the upstream
    API, and sees neither the case of the code nor the white space around
    it. *)
Theorem mapSessionType_canonical_and_insensitive (type : option string) :
  In (mapSessionType type) canonical_session_names
  /\ mapSessionType (option_map toLowerCase type) = mapSessionType type
  /\ mapSessionType (option_map trim type) = mapSessionType type.
Proof.
  split; [apply mapSessionType_canonical|].
  destruct type as [t|]; [|now split]. simpl. split.
  - unfold mapSessionType. unfold toLowerCase at 1. rewrite is_empty_map_chars.
    now rewrite upper_of_lower.
  - unfold mapSessionType.
    replace (trim (toUpperCase (trim t))) with (trim (toUpperCase t)).
    2:{ unfold toUpperCase.
        rewrite (trim_map upper_char t upper_keeps_space).
        rewrite (trim_map upper_char (trim t) upper_keeps_space).
        now rewrite trim_idempotent. }
    destruct (is_empty (trim t)) eqn:E1, (is_empty t) eqn:E2; try reflexivity.
    + destruct (trim t) eqn:Et; [|discriminate].
      unfold toUpperCase. rewrite (trim_map upper_char t upper_keeps_space), Et.
      reflexivity.
    + destruct t; [|discriminate]. discriminate.
Qed.

(** ** Month filter *)

Lemma List_filter_sublist {A : Type} (p : A -> bool) (l : list A) :
  sublist (List.filter p l) l.
Proof.
  induction l as [|x r IH]; simpl; [constructor|].
  destruct (p x); now constructor.
Qed.

Lemma List_filter_twice {A : Type} (p : A -> bool) (l : list A) :
  List.filter p (List.filter p l) = List.filter p l.
Proof.
  induction l as [|x r IH]; simpl; [reflexivity|].
  destruct (p x) eqn:E; simpl; [rewrite E|]; now rewrite ?IH.
Qed.

Lemma List_filter_true {A : Type} (l : list A) : List.filter (fun _ => true) l = l.
Proof. induction l as [|x r IH]; simpl; [reflexivity|]. now rewrite IH. Qed.

Lemma filterByMonth_as_filter {A : Type} `{HasDateStart A} (month : js_scalar) :
  exists p : A -> bool, forall data, filterByMonth data month = List.filter p data.
Proof.
  unfold filterByMonth. destruct (negb (scalar_truthy month)).
  - exists (fun _ => true). intros data. now rewrite List_filter_true.
  - destruct (obj_get monthMap (month_key month)).
    + eexists. intros data. reflexivity.
    + eexists. intros data. reflexivity.
    + exists (fun _ => true). intros data. now rewrite List_filter_true.
Qed.

Lemma filterByMonth_sublist (data : list Session.t) (month : js_scalar) :
  sublist (filterByMonth data month) data.
Proof.
  destruct (filterByMonth_as_filter (A := Session.t) month) as [p Hp].
  rewrite Hp. apply List_filter_sublist.
Qed.

(** Whatever the month input, the month filter only removes items: the
    result is the input with some items left out, in the same order; and
    filtering a second time by the same month changes nothing. *)
Theorem filterByMonth_only_removes (data : list Session.t) (month : js_scalar) :
  sublist (filterByMonth data month) data
  /\ filterByMonth (filterByMonth data month) month = filterByMonth data month.
Proof.
  destruct (filterByMonth_as_filter (A := Session.t) month) as [p Hp].
  rewrite !Hp. split; [apply List_filter_sublist|apply List_filter_twice].
Qed.


(** ** Driver resolver *)

(** The driver resolver does not see the case of the letters of an ASCII
    token. *)
Theorem resolveDriverNumber_ignores_case (drivers : list Driver.t) (token : string)
    (Hascii : all_chars is_ascii token = true) :
  resolveDriverNumber drivers (JStr (toUpperCase token))
  = resolveDriverNumber drivers (JStr token)
  /\ resolveDriverNumber drivers (JStr (toLowerCase token))
     = resolveDriverNumber drivers (JStr token).
Proof.
  unfold resolveDriverNumber, driver_needle. cbn [scalar_truthy scalar_toString].
  unfold toUpperCase at 1. unfold toLowerCase at 3.
  rewrite !is_empty_map_chars. rewrite lower_of_upper.
  replace (toLowerCase (toLowerCase token)) with (toLowerCase token); [now split|].
  unfold toLowerCase. rewrite map_chars_compose.
  apply map_chars_ext. intros c. each_char c.
Qed.

Lemma resolveDriverNumber_ignores_case_witness :
  all_chars is_ascii "Stroll" = true
  /\ resolveDriverNumber [ver; str] (JStr "STROLL") = Some 18%N
  /\ resolveDriverNumber [ver; str] (JStr "stroll") = Some 18%N.
Proof.
  split; [reflexivity|].
  pose proof (resolveDriverNumber_ignores_case [ver; str] "Stroll" eq_refl) as [Hu Hl].
  split; [exact (eq_trans Hu eq_refl)|exact (eq_trans Hl eq_refl)].
Defined.

(** ** Location map and session resolver *)

Lemma default_aliases_lookup :
  Forall (fun alias =>
            Map_get_truthy (Map_of default_aliases) (fst alias) = Some (snd alias))
    default_aliases.
Proof.
  unfold default_aliases at 2.
  repeat (apply Forall_cons; split; [vm_compute; reflexivity|]). constructor.
Qed.

(** With the upstream down and nothing cached, every alias of the static
    table still resolves, under any spelling that normalizes to it, to
    the country of the table; nothing is cached. *)
Theorem resolveCountry_defaults_offline (currentYear : Z) (fuzzyName : option string)
    (alias : string * string)
    (Halias : In alias default_aliases)
    (Hname : normalizeString fuzzyName = fst alias) :
  resolveCountryFromHistory (fun _ => None) currentYear ∅ fuzzyName
  = (Some (snd alias), ∅).
Proof.
  pose proof default_aliases_lookup as H.
  rewrite List.Forall_forall in H. specialize (H alias Halias).
  unfold resolveCountryFromHistory. rewrite Hname.
  cbn [resolve_in_years]. unfold fetchAndBuildLocationMap at 1.
  rewrite lookup_empty. now rewrite H.
Qed.

Lemma resolveCountry_defaults_offline_witness :
  In ("ABU DHABI", "United Arab Emirates") default_aliases
  /\ normalizeString (Some "abu-dhabi") = "ABU DHABI"
  /\ resolveCountryFromHistory (fun _ => None) 2025 ∅ (Some "abu-dhabi")
     = (Some "United Arab Emirates", ∅).
Proof.
  assert (Hin : In ("ABU DHABI", "United Arab Emirates") default_aliases)
    by (left; reflexivity).
  split; [exact Hin|]. split; [reflexivity|].
  exact (resolveCountry_defaults_offline 2025 (Some "abu-dhabi")
           ("ABU DHABI", "United Arab Emirates") Hin eq_refl).
Defined.

(** Once the meetings of a year have been fetched (a non-empty answer),
    every later call for that year returns the same map and leaves the
    cache as it is, whatever the upstream would answer. *)
Theorem fetchAndBuildLocationMap_reuses (cache : meetings_cache) (year : Z)
    (m : Meeting.t) (data : list Meeting.t) (later : option (list Meeting.t)) :
  let first := fetchAndBuildLocationMap cache year (Some (m :: data)) in
  fetchAndBuildLocationMap (snd first) year later = first.
Proof.
  unfold fetchAndBuildLocationMap.
  destruct (cache !! year) as [cached|] eqn:E; simpl.
  - now rewrite E.
  - now rewrite lookup_insert_eq.
Qed.

Lemma fetchAndBuildLocationMap_keeps (cache : meetings_cache) (year : Z)
    (response : option (list Meeting.t)) :
  cache ⊆ snd (fetchAndBuildLocationMap cache year response).
Proof.
  unfold fetchAndBuildLocationMap.
  destruct (cache !! year) as [cached|] eqn:E; [reflexivity|].
  destruct response as [data|]; [|reflexivity].
  destruct (Nat.ltb 0 (List.length data)); [|reflexivity].
  simpl. now apply insert_subseteq.
Qed.

Lemma resolve_in_years_keeps (meetings : Z -> option (list Meeting.t))
    (normalized : string) (years : list Z) (cache : meetings_cache) :
  cache ⊆ snd (resolve_in_years meetings cache normalized years).
Proof.
  revert cache. induction years as [|year rest IH]; intros cache; [reflexivity|].
  simpl.
  pose proof (fetchAndBuildLocationMap_keeps cache year (meetings year)) as Hk.
  destruct (fetchAndBuildLocationMap cache year (meetings year)) as [map cache'].
  simpl in Hk.
  destruct (Map_get_truthy map normalized); [exact Hk|].
  destruct (Map_get_truthy map (first_token normalized)); [exact Hk|].
  etransitivity; [exact Hk|apply IH].
Qed.

(** The cache of location maps is never pruned: after [getSessionKey]
    every year that was cached is still cached with the same map. *)
Theorem getSessionKey_keeps_cache (api : Upstream) (currentYear : Z)
    (cache : meetings_cache) (year : N) (location : string)
    (sessionType : option string) (month : js_scalar) :
  cache ⊆ snd (getSessionKey api currentYear cache year location sessionType month).
Proof.
  unfold getSessionKey, resolveCountryFromHistory.
  pose proof (resolve_in_years_keeps (meetings_of api)
                (normalizeString (Some location))
                [currentYear; (currentYear - 1)%Z; (currentYear - 2)%Z;
                 (currentYear - 3)%Z] cache) as Hk.
  destruct (resolve_in_years _ _ _ _) as [resolved cache'].
  now destruct (locate_session _ _ _ _ _).
Qed.

(** Two spellings of a location that normalize to the same key and that
    the location maps resolve give the same outcome of [getSessionKey]:
    the same session key or the same error, and the same cache. *)
Theorem getSessionKey_same_for_spellings (api : Upstream) (currentYear : Z)
    (cache : meetings_cache) (year : N) (location1 location2 : string)
    (sessionType : option string) (month : js_scalar)
    (Hsame : normalizeString (Some location1) = normalizeString (Some location2))
    (Hresolved : is_Some (fst (resolveCountryFromHistory (meetings_of api)
                                 currentYear cache (Some location1)))) :
  getSessionKey api currentYear cache year location1 sessionType month
  = getSessionKey api currentYear cache year location2 sessionType month.
Proof.
  unfold getSessionKey, resolveCountryFromHistory in *. rewrite <- Hsame.
  destruct (resolve_in_years _ _ _ _) as [resolved cache'].
  destruct Hresolved as [country Hc]. simpl in Hc. subst resolved. reflexivity.
Qed.

Lemma getSessionKey_same_for_spellings_witness :
  normalizeString (Some "Monza") = normalizeString (Some "monza")
  /\ is_Some (fst (resolveCountryFromHistory (meetings_of italian_api) 2025 ∅
                     (Some "Monza")))
  /\ getSessionKey italian_api 2025 ∅ 2024 "Monza" (Some "R") JNull
     = getSessionKey italian_api 2025 ∅ 2024 "monza" (Some "R") JNull.
Proof.
  assert (Hr : is_Some (fst (resolveCountryFromHistory (meetings_of italian_api) 2025 ∅
                               (Some "Monza")))).
  { exists "Italy". vm_compute. reflexivity. }
  split; [reflexivity|]. split; [exact Hr|].
  exact (getSessionKey_same_for_spellings italian_api 2025 ∅ 2024 "Monza" "monza"
           (Some "R") JNull eq_refl Hr).
Defined.

(** ** Authentication *)

(** The token cache keeps its promise of freshness.  When no fresh token
    is cached, a successful exchange returns the new token; as long as
    more than 60 seconds remain before its expiry, later calls return it
    from the cache without an exchange; from 60 seconds before the
    expiry on, the cached token is not handed out any more (a failed
    exchange then gives nothing and leaves the cache as it is). *)
Theorem getAccessToken_freshness (cache : token_cache) (now : Z)
    (username password : string) (data : TokenResponse.t)
    (Huser : username <> "") (Hpass : password <> "")
    (Hstale : token_is_fresh cache now username = false) :
  let first :=
    getAccessToken cache now (Some username) (Some password) (Some data) in
  let expiry := (now + TokenResponse.expires_in data * 1000)%Z in
  fst first = Some (TokenResponse.access_token data)
  /\ (forall later answer, (later + 60000 < expiry)%Z ->
        getAccessToken (snd first) later (Some username) (Some password) answer
        = (Some (TokenResponse.access_token data), snd first))
  /\ (forall later, (expiry <= later + 60000)%Z ->
        getAccessToken (snd first) later (Some username) (Some password) None
        = (None, snd first)).
Proof.
  assert (Hu : truthy (Some username) = true) by now apply nonempty_iff.
  assert (Hp : truthy (Some password) = true) by now apply nonempty_iff.
  unfold getAccessToken. rewrite Hu, Hp, Hstale. cbn [negb orb fst snd].
  split; [reflexivity|]. split.
  - intros later answer Hl. unfold token_is_fresh. rewrite lookup_insert_eq.
    cbn [TokenEntry.expiresAt TokenEntry.token option_map].
    now replace (Z.ltb _ _) with true by (symmetry; now apply Z.ltb_lt).
  - intros later Hl. unfold token_is_fresh. rewrite lookup_insert_eq.
    cbn [TokenEntry.expiresAt].
    now replace (Z.ltb _ _) with false by (symmetry; apply Z.ltb_ge; lia).
Qed.

Lemma getAccessToken_freshness_witness :
  "ann" <> "" /\ "secret" <> ""
  /\ token_is_fresh ∅ 1000 "ann" = false
  /\ forall answer,
       getAccessToken
         (snd (getAccessToken ∅ 1000 (Some "ann") (Some "secret") (Some sample_token)))
         3000000 (Some "ann") (Some "secret") answer
       = (Some "abc",
          snd (getAccessToken ∅ 1000 (Some "ann") (Some "secret") (Some sample_token))).
Proof.
  assert (H1 : "ann" <> "") by discriminate.
  assert (H2 : "secret" <> "") by discriminate.
  split; [exact H1|]. split; [exact H2|]. split; [reflexivity|].
  intros answer.
  exact (proj1 (proj2 (getAccessToken_freshness ∅ 1000 "ann" "secret" sample_token
                         H1 H2 eq_refl))
           3000000%Z answer eq_refl).
Defined.

(** ** Insight type resolver *)

(** [resolveInsightType] answers with a registered handler name whose
    letters and digits, in lower case, are those of the request, or with
    nothing; requests that agree on their letters and digits, whatever
    their case, spacing and punctuation, get the same answer; and every
    handler of either server is reached by its own name. *)
Theorem resolveInsightType_sound (keys : list string) (inputType : option string) :
  match resolveInsightType keys inputType with
  | Some k =>
      In k keys /\ option_map insight_norm inputType = Some (insight_norm k)
  | None => True
  end
  /\ (forall a b, a <> "" -> b <> "" -> insight_norm a = insight_norm b ->
        resolveInsightType keys (Some a) = resolveInsightType keys (Some b))
  /\ Forall (fun k => resolveInsightType INSIGHT_HANDLERS_final (Some k) = Some k)
       INSIGHT_HANDLERS_final
  /\ Forall (fun k => resolveInsightType INSIGHT_HANDLERS_strict (Some k) = Some k)
       INSIGHT_HANDLERS_strict.
Proof.
  split; [|split; [|split]].
  - unfold resolveInsightType. destruct inputType as [input|]; [|exact I].
    destruct (is_empty input); [exact I|].
    pose proof (find_first
                  (fun k => String.eqb (insight_norm k) (insight_norm input)) keys) as H.
    destruct (List.find _ keys) as [k|]; [|exact I].
    destruct (is_empty k); [exact I|].
    destruct H as (before & after & -> & Hk & _). apply String.eqb_eq in Hk.
    split; [apply in_or_app; right; now left|]. simpl. now rewrite Hk.
  - intros a b Ha Hb Hn. unfold resolveInsightType.
    apply nonempty_iff, negb_true_iff in Ha, Hb. now rewrite Ha, Hb, Hn.
  - unfold INSIGHT_HANDLERS_final at 2.
    repeat (apply Forall_cons; split; [vm_compute; reflexivity|]). constructor.
  - unfold INSIGHT_HANDLERS_strict at 2.
    repeat (apply Forall_cons; split; [vm_compute; reflexivity|]). constructor.
Qed.

(** ** Race control summary *)

Lemma sublist_In {A : Type} (l1 l2 : list A) (x : A) :
  sublist l1 l2 -> In x l1 -> In x l2.
Proof.
  induction 1 as [|y l1 l2 _ IH|y l1 l2 _ IH]; simpl; [easy| |].
  - intros [->|H]; [now left|right; now apply IH].
  - intros H. right. now apply IH.
Qed.

Lemma filter_by_driver_sublist (drivers : list Driver.t) (body : Body.t)
    (messages : list Message.t) (driverNum : option N) (filtered : list Message.t) :
  filter_by_driver drivers body messages = Ok (driverNum, filtered) ->
  sublist filtered messages.
Proof.
  unfold filter_by_driver. destruct (scalar_truthy (Body.driver body)).
  - destruct (List.find _ drivers) as [d|]; [|discriminate].
    destruct (Driver.name_acronym d), (Driver.last_name d); try discriminate.
    intros [= _ <-]. apply List_filter_sublist.
  - now intros [= _ <-].
Qed.

Lemma filter_by_lap_sublist (drivers : list Driver.t) (laps_of : N -> Z -> list Lap.t)
    (body : Body.t) (driverNum : option N) (filtered out : list Message.t) :
  filter_by_lap drivers laps_of body driverNum filtered = Ok out ->
  sublist out filtered.
Proof.
  unfold filter_by_lap. destruct (lapParam body) as [targetLap|];
    [|now intros [= <-]].
  match goal with |- context [match ?r with Some _ => _ | None => Err _ end] =>
    destruct r as [ref|] end; [|discriminate].
  destruct (laps_of ref targetLap) as [|lap rest].
  - intros [= <-]. apply sublist_nil_l.
  - intros [= <-]. apply List_filter_sublist.
Qed.

Lemma filter_by_keyword_sublist (body : Body.t) (filtered : list Message.t) :
  sublist (filter_by_keyword body filtered) filtered.
Proof.
  unfold filter_by_keyword. destruct (Body.filter body) as [f|]; [|reflexivity].
  destruct (is_empty f); [reflexivity|apply List_filter_sublist].
Qed.

(** Whatever the filters, a successful race control summary lists
    messages of the upstream answer only, each at most as often as the
    upstream has it, in ascending order of time; without any filter it
    lists all of them. *)
Theorem race_control_summary_output (drivers : list Driver.t)
    (laps_of : N -> Z -> list Lap.t) (messages : list Message.t) (body : Body.t) :
  match race_control_summary drivers laps_of messages body with
  | Ok out =>
      ascending Message.date out
      /\ exists kept, sublist kept messages /\ Permutation out kept
  | Err _ => True
  end
  /\ exists all,
       race_control_summary drivers laps_of messages (Body.mk JNull None None None)
       = Ok all
       /\ Permutation all messages.
Proof.
  split.
  - unfold race_control_summary.
    destruct (filter_by_driver drivers body messages) as [[driverNum f1]|] eqn:E1;
      [|exact I].
    destruct (filter_by_lap drivers laps_of body driverNum f1) as [f2|] eqn:E2;
      [|exact I].
    split; [apply sort_by_ascending|].
    exists (filter_by_keyword body f2). split; [|apply sort_by_perm].
    etransitivity; [apply filter_by_keyword_sublist|].
    etransitivity; [eapply filter_by_lap_sublist; exact E2|].
    eapply filter_by_driver_sublist; exact E1.
  - eexists. split; [reflexivity|]. apply sort_by_perm.
Qed.

Lemma filter_by_driver_reference (drivers : list Driver.t) (body : Body.t)
    (messages : list Message.t) (driverNum : option N) (filtered : list Message.t) :
  filter_by_driver drivers body messages = Ok (driverNum, filtered) ->
  (if N_truthy driverNum then driverNum else session_leader drivers)
  = lap_reference drivers (Body.driver body)
  /\ (scalar_truthy (Body.driver body) = false -> filtered = messages).
Proof.
  unfold filter_by_driver, lap_reference, resolveDriverNumber.
  destruct (scalar_truthy (Body.driver body)); cbn [negb].
  - destruct (List.find _ drivers) as [d|]; [|discriminate].
    destruct (Driver.name_acronym d), (Driver.last_name d); try discriminate.
    intros [= <- _]. split; [|discriminate]. cbn [N_truthy].
    now destruct (N.eqb (Driver.driver_number d) 0).
  - intros [= <- <-]. now split.
Qed.

(** Under a lap filter, the time window is that of the lap of one
    reference driver: the driver of the request if there is one, else
    the driver in position 1, else the first driver of the roster.  When
    the upstream has no record of that lap of that driver, nothing is
    retained.  Otherwise a message is retained only if it carries the
    number of the lap or falls into the window of that lap, from its
    start to its start plus its duration; and without a driver and a
    keyword filter, every such message of the upstream is retained. *)
Theorem race_control_lap_window (drivers : list Driver.t)
    (laps_of : N -> Z -> list Lap.t) (messages : list Message.t) (body : Body.t)
    (targetLap : Z) (Hlap : lapParam body = Some targetLap) :
  match race_control_summary drivers laps_of messages body with
  | Ok out =>
      exists ref,
        lap_reference drivers (Body.driver body) = Some ref
        /\ match laps_of ref targetLap with
           | [] => out = []
           | lap :: _ =>
               (forall m, In m out ->
                  In m messages
                  /\ (Message.lap_number m = Some targetLap \/ in_lap_window lap m))
               /\ (scalar_truthy (Body.driver body) = false ->
                   Body.filter body = None ->
                   forall m,
                     In m messages ->
                     Message.lap_number m = Some targetLap \/ in_lap_window lap m ->
                     In m out)
           end
  | Err _ => True
  end.
Proof.
  unfold race_control_summary.
  destruct (filter_by_driver drivers body messages) as [[driverNum f1]|] eqn:E1;
    [|exact I].
  destruct (filter_by_lap drivers laps_of body driverNum f1) as [f2|] eqn:E2;
    [|exact I].
  destruct (filter_by_driver_reference _ _ _ _ _ E1) as [Href Hall].
  pose proof (filter_by_driver_sublist _ _ _ _ _ E1) as Hsub.
  unfold filter_by_lap in E2. rewrite Hlap in E2.
  fold (session_leader drivers) in E2. rewrite Href in E2.
  destruct (lap_reference drivers (Body.driver body)) as [ref|]; [|discriminate].
  exists ref. split; [reflexivity|].
  destruct (laps_of ref targetLap) as [|lap rest].
  - injection E2 as <-.
    pose proof (filter_by_keyword_sublist body []) as Hs.
    apply sublist_nil_r in Hs. now rewrite Hs.
  - injection E2 as <-. split.
    + intros m Hm. apply sort_by_In in Hm.
      apply (sublist_In _ _ _ (filter_by_keyword_sublist _ _)) in Hm.
      apply filter_In in Hm as [Hin Hm].
      split; [exact (sublist_In _ _ _ Hsub Hin)|].
      apply orb_true_iff in Hm as [Hm|Hm].
      * left. destruct (Message.lap_number m) as [n|]; [|discriminate].
        apply Z.eqb_eq in Hm. now subst.
      * right. apply andb_true_iff in Hm as [H1 H2]. apply Z.leb_le in H1, H2.
        unfold in_lap_window, finish_time. split; [exact H1|exact H2].
    + intros Hd Hf m Hin Hm. apply sort_by_In.
      unfold filter_by_keyword. rewrite Hf. rewrite (Hall Hd).
      apply filter_In. split; [exact Hin|]. apply orb_true_iff.
      destruct Hm as [Hm|[H1 H2]].
      * left. rewrite Hm. apply Z.eqb_refl.
      * right. apply andb_true_iff. split; apply Z.leb_le; assumption.
Qed.

Lemma race_control_lap_window_witness :
  lapParam (Body.mk JNull (Some 5%Z) None None) = Some 5%Z
  /\ lap_reference [str; ver] JNull = Some 1%N
  /\ race_control_summary [str; ver] lap_5_of_car_1
       [blue_flag_message; safety_car_message; car18_message 18]
       (Body.mk JNull (Some 5%Z) None None)
     = Ok [car18_message 18; safety_car_message]
  /\ (forall m, In m [car18_message 18; safety_car_message] ->
        In m [blue_flag_message; safety_car_message; car18_message 18]
        /\ (Message.lap_number m = Some 5%Z
            \/ in_lap_window (Lap.mk 1 5 (Some 1900%Z) (Some 200%Z)) m)).
Proof.
  split; [reflexivity|]. split; [reflexivity|]. split; [reflexivity|].
  pose proof (race_control_lap_window [str; ver] lap_5_of_car_1
                [blue_flag_message; safety_car_message; car18_message 18]
                (Body.mk JNull (Some 5%Z) None None) 5%Z eq_refl) as H.
  change (race_control_summary [str; ver] lap_5_of_car_1
            [blue_flag_message; safety_car_message; car18_message 18]
            (Body.mk JNull (Some 5%Z) None None))
    with (Ok (A := list Message.t) [car18_message 18; safety_car_message]) in H.
  destruct H as (ref & Href & H).
  change (lap_reference [str; ver] (Body.driver (Body.mk JNull (Some 5%Z) None None)))
    with (Some 1%N) in Href.
  injection Href as <-.
  exact (proj1 H).
Defined.

Lemma keyword_filter_In (f : string) (filtered : list Message.t) (m : Message.t) :
  f <> "" ->
  In m (filter_by_keyword (keyword_body f) filtered)
  <-> In m filtered
      /\ (includes (corpus_of m) (toLowerCase f) = true
          \/ includes (corpus_of m)
               (replace_first "virtualsafetycar" "virtual safety car"
                  (replace_first "safetycar" "safety car" (toLowerCase f))) = true).
Proof.
  intros Hf. unfold filter_by_keyword, keyword_body. cbn [Body.filter].
  apply nonempty_iff, negb_true_iff in Hf. rewrite Hf.
  rewrite filter_In. fold (corpus_of m). now rewrite orb_true_iff.
Qed.

(** The keyword filter searches the category, the flag and the text of a
    message; the case of the letters of an ASCII keyword does not
    matter.  The keyword "SafetyCar" also finds
    the two words "safety car".  The keyword "VirtualSafetyCar" is
    re-spaced to "virtualsafety car" (the first replacement has already
    split it), so it does not find the three words "virtual safety
    car". *)
Theorem keyword_filter_respacing (filtered : list Message.t) :
  (forall f, all_chars is_ascii f = true ->
     filter_by_keyword (keyword_body (toUpperCase f)) filtered
     = filter_by_keyword (keyword_body f) filtered)
  /\ (forall m,
        In m (filter_by_keyword (keyword_body "SafetyCar") filtered)
        <-> In m filtered
            /\ (includes (corpus_of m) "safetycar" = true
                \/ includes (corpus_of m) "safety car" = true))
  /\ (forall m,
        In m (filter_by_keyword (keyword_body "VirtualSafetyCar") filtered)
        <-> In m filtered
            /\ (includes (corpus_of m) "virtualsafetycar" = true
                \/ includes (corpus_of m) "virtualsafety car" = true)).
Proof.
  split; [|split].
  - intros f _. unfold filter_by_keyword, keyword_body. cbn [Body.filter].
    unfold toUpperCase at 1. rewrite is_empty_map_chars. now rewrite lower_of_upper.
  - intros m. now apply (keyword_filter_In "SafetyCar").
  - intros m. now apply (keyword_filter_In "VirtualSafetyCar").
Qed.

(** ** A driver that the roster does not know *)

Lemma unresolved_find (drivers : list Driver.t) (token : js_scalar) :
  scalar_truthy token = true ->
  resolveDriverNumber drivers token = None ->
  List.find (driver_matches (driver_needle token)) drivers = None.
Proof.
  unfold resolveDriverNumber. intros -> H. simpl in H.
  now destruct (List.find _ drivers).
Qed.

(** The handlers treat a driver token that matches no roster entry in two
    ways: the race control summary and the fastest lap summary fail and
    name the token; the pit stop summary and the position changes of a
    lap ignore the filter and answer for all drivers. *)
Theorem unknown_driver_handling (drivers : list Driver.t) (token : js_scalar)
    (Htoken : scalar_truthy token = true)
    (Hunknown : resolveDriverNumber drivers token = None) :
  (forall laps_of messages lap_number lap keyword,
      race_control_summary drivers laps_of messages
        (Body.mk token lap_number lap keyword)
      = Err ("Driver '" +:+ scalar_toString token +:+ "' not found in this session."))
  /\ (forall laps detail stints_of,
        fastest_lap_summary laps drivers detail stints_of token
        = Err ("Driver '" +:+ scalar_toString token +:+ "' not found."))
  /\ (forall pits stints,
        pitstops_summary pits drivers stints token
        = pitstops_summary pits drivers stints JNull)
  /\ (forall lap_number allLaps results,
        position_change_summary lap_number token allLaps drivers results
        = position_change_summary lap_number JNull allLaps drivers results).
Proof.
  split; [|split; [|split]].
  - intros. unfold race_control_summary, filter_by_driver. cbn [Body.driver].
    now rewrite Htoken, (unresolved_find drivers token Htoken Hunknown).
  - intros. unfold fastest_lap_summary, fastest_candidates.
    now rewrite Htoken, Hunknown.
  - intros. unfold pitstops_summary, targetPits_of. now rewrite Htoken, Hunknown.
  - intros. unfold position_change_summary. now rewrite Htoken, Hunknown.
Qed.

Lemma unknown_driver_handling_witness :
  scalar_truthy (JStr "hamilton") = true
  /\ resolveDriverNumber [ver; str] (JStr "hamilton") = None
  /\ pitstops_summary [stop_on_lap_10] [ver; str] None (JStr "hamilton")
     = pitstops_summary [stop_on_lap_10] [ver; str] None JNull.
Proof.
  split; [reflexivity|]. split; [reflexivity|].
  exact (proj1 (proj2 (proj2 (unknown_driver_handling [ver; str] (JStr "hamilton")
                                eq_refl eq_refl)))
           [stop_on_lap_10] None).
Defined.

(** ** Position changes: order and status *)

Lemma status_of_sign (gained : Z) :
  (status_of gained = "GAINED" <-> (0 < gained)%Z)
  /\ (status_of gained = "LOST" <-> (gained < 0)%Z)
  /\ (status_of gained = "SAME" <-> gained = 0%Z).
Proof.
  unfold status_of.
  destruct (Z.ltb 0 gained) eqn:E1; [apply Z.ltb_lt in E1|apply Z.ltb_ge in E1].
  - repeat split; intros H; try discriminate; try lia; reflexivity.
  - destruct (Z.ltb gained 0) eqn:E2; [apply Z.ltb_lt in E2|apply Z.ltb_ge in E2];
      repeat split; intros H; try discriminate; try lia; reflexivity.
Qed.

Lemma race_change_of_In (results : list SessionResult.t) (c : RaceChange.t) :
  In c (collect race_change_of results) ->
  exists r, In r results
            /\ SessionResult.grid_position r = Some (RaceChange.start c)
            /\ SessionResult.position r = Some (RaceChange.finish c)
            /\ RaceChange.positions_gained c = (RaceChange.start c - RaceChange.finish c)%Z
            /\ RaceChange.status c = status_of (RaceChange.positions_gained c).
Proof.
  intros H. apply collect_In in H as (r & Hr & Hc). exists r. split; [exact Hr|].
  unfold race_change_of in Hc.
  destruct (SessionResult.position r), (SessionResult.grid_position r);
    try discriminate.
  injection Hc as <-. now repeat split.
Qed.

(** The position changes are listed from the largest gain to the largest
    loss, and the status of an entry says which it is: "GAINED" exactly
    for a positive number of places, "LOST" for a negative one, "SAME"
    for none.  Without a lap, an entry is made only for a result that has
    both a grid and a finishing position, and it gains the grid position
    minus the finishing position; an empty classification is an error. *)
Theorem position_changes_ordered (lap_number : option Z) (driver : js_scalar)
    (allLaps : list Lap.t) (drivers : list Driver.t)
    (results : list SessionResult.t) :
  match position_change_summary lap_number driver allLaps drivers results with
  | Ok (LapChanges _ changes) =>
      ascending (fun c => (- Change.positions_gained c)%Z) changes
      /\ Forall (fun c =>
                   (Change.status c = "GAINED" <-> (0 < Change.positions_gained c)%Z)
                   /\ (Change.status c = "LOST" <-> (Change.positions_gained c < 0)%Z)
                   /\ (Change.status c = "SAME" <-> Change.positions_gained c = 0%Z))
           changes
  | Ok (RaceChanges changes) =>
      results <> []
      /\ ascending (fun c => (- RaceChange.positions_gained c)%Z) changes
      /\ Forall (fun c =>
                   (exists r, In r results
                              /\ SessionResult.grid_position r = Some (RaceChange.start c)
                              /\ SessionResult.position r = Some (RaceChange.finish c))
                   /\ RaceChange.positions_gained c
                      = (RaceChange.start c - RaceChange.finish c)%Z
                   /\ (RaceChange.status c = "GAINED"
                       <-> (0 < RaceChange.positions_gained c)%Z)
                   /\ (RaceChange.status c = "LOST"
                       <-> (RaceChange.positions_gained c < 0)%Z)
                   /\ (RaceChange.status c = "SAME"
                       <-> RaceChange.positions_gained c = 0%Z))
           changes
  | Err _ => True
  end.
Proof.
  unfold position_change_summary.
  destruct (Z_truthy lap_number).
  - destruct (Z.leb _ 1); [exact I|].
    split; [apply sort_by_ascending|].
    apply List.Forall_forall. intros c Hc. apply sort_by_In in Hc.
    assert (Hl : exists n, In c (lap_changes drivers allLaps n)).
    { eexists.
      destruct (scalar_truthy driver); [|exact Hc].
      destruct (resolveDriverNumber drivers driver) as [t|]; [|exact Hc].
      destruct (N.eqb t 0); [exact Hc|]. apply filter_In in Hc as [Hc _]. exact Hc. }
    destruct Hl as [n Hl]. unfold lap_changes in Hl.
    apply collect_In in Hl as (d & _ & Hd). unfold change_of in Hd.
    destruct (posMap_get (getLeaderboard allLaps (n - 1)) d) as [p|]; [|discriminate].
    destruct (posMap_get (getLeaderboard allLaps n) d) as [q|]; [|discriminate].
    destruct (negb (Z.eqb p 0) && negb (Z.eqb q 0)); [|discriminate].
    injection Hd as <-.
    cbn [Change.status Change.positions_gained]. apply status_of_sign.
  - unfold race_changes. destruct results as [|r0 rest]; [exact I|].
    cbn [List.length Nat.eqb]. split; [discriminate|].
    split; [apply sort_by_ascending|].
    apply List.Forall_forall. intros c Hc. apply sort_by_In in Hc.
    apply race_change_of_In in Hc as (r & Hr & Hg & Hp & Hd & Hs).
    split; [exists r; now repeat split|]. split; [exact Hd|].
    rewrite Hs. apply status_of_sign.
Qed.

(** ** Fastest lap *)

Lemma sort_by_head_least {A : Type} (key : A -> Z) (l : list A) (x : A) (rest : list A) :
  sort_by key l = x :: rest ->
  In x l /\ forall y, In y l -> (key x <= key y)%Z.
Proof.
  intros E. pose proof (sort_by_ascending key l) as Hs. rewrite E in Hs.
  split.
  - apply (sort_by_In key). rewrite E. now left.
  - intros y Hy. apply (sort_by_In key) in Hy. rewrite E in Hy.
    inversion Hs as [|? ? _ Hall]; subst.
    destruct Hy as [->|Hy]; [lia|].
    rewrite List.Forall_forall in Hall. now apply Hall.
Qed.

Lemma stint_contains_iff (lap_number : Z) (s : Stint.t) :
  stint_contains lap_number s = true <-> covers_lap lap_number s.
Proof.
  unfold stint_contains, covers_lap.
  rewrite andb_true_iff, !Z.leb_le. reflexivity.
Qed.

Lemma tyre_of_reported (stints : option (list Stint.t)) (lap_number : Z) :
  tyres_reported stints lap_number
    (fst (tyre_of stints lap_number)) (snd (tyre_of stints lap_number)).
Proof.
  unfold tyre_of, tyres_reported. destruct stints as [stints|]; [|now split].
  pose proof (find_first (stint_contains lap_number) stints) as H.
  assert (Hno : forall l, Forall (fun y => stint_contains lap_number y = false) l ->
                          Forall (fun s => ~ covers_lap lap_number s) l).
  { intros l Hl. apply (List.Forall_impl (P := fun y => stint_contains lap_number y = false));
      [|exact Hl].
    intros s Hs Hc. apply stint_contains_iff in Hc. congruence. }
  destruct (List.find _ stints) as [s|].
  - destruct H as (before & after & -> & Hs & Hb). right.
    exists before, s, after. apply stint_contains_iff in Hs.
    repeat split; try apply Hs; [now apply Hno|]. simpl.
    destruct Hs as [Hs _]. lia.
  - left. split; [now apply Hno|now split].
Qed.

Lemma fastest_outcome_of (laps : list Lap.t) (detail : N -> list Driver.t)
    (stints_of : N -> option (list Stint.t)) (target : option N)
    (candidates : list Lap.t) :
  (forall l, In l candidates <-> In l laps /\ asked_for target l) ->
  fastest_outcome laps detail stints_of target
    match sort_by duration_of candidates with
    | [] => Err "No valid laps found for this criteria."
    | fastLap :: _ =>
        let dDetail := List.hd_error (detail (Lap.driver_number fastLap)) in
        let '(compound, tyreAge) :=
          tyre_of (stints_of (Lap.driver_number fastLap)) (Lap.lap_number fastLap) in
        Ok {| FastestLap.driver :=
                match dDetail with
                | Some d =>
                    match Driver.name_acronym d with
                    | Some a => if is_empty a then "UNK" else a
                    | None => "UNK"
                    end
                | None => "UNK"
                end;
              FastestLap.full_name :=
                match dDetail with
                | Some d => Driver.full_name d
                | None => None
                end;
              FastestLap.lap_time := duration_of fastLap;
              FastestLap.lap_number := Lap.lap_number fastLap;
              FastestLap.compound := compound;
              FastestLap.tyre_age_laps := tyreAge |}
    end.
Proof.
  intros Hc. unfold fastest_outcome.
  destruct (sort_by duration_of candidates) as [|fastLap rest] eqn:Es.
  - left. split; [|reflexivity].
    apply List.Forall_forall. intros l Hl Ha.
    assert (Hin : In l candidates) by (apply Hc; now split).
    apply (sort_by_In duration_of) in Hin. rewrite Es in Hin. destruct Hin.
  - right. destruct (sort_by_head_least duration_of _ _ _ Es) as [Hin Hmin].
    apply Hc in Hin as [Hl Ha].
    pose proof (tyre_of_reported (stints_of (Lap.driver_number fastLap))
                  (Lap.lap_number fastLap)) as Ht.
    destruct (tyre_of _ _) as [compound tyreAge]. cbn [fst snd] in Ht.
    eexists. exists fastLap. split; [reflexivity|]. cbn.
    repeat split; try assumption; try apply Ha.
    + unfold shown_acronym. now destruct (detail (Lap.driver_number fastLap)).
    + intros l' Hl' Ha'. apply Hmin. apply Hc. now split.
Qed.

(** The fastest lap summary answers for the laps that have a duration,
    those of the requested driver if one is requested.  A requested
    driver that the roster does not know, or whose car number is 0, is
    an error that names the token.  Without such a lap the summary
    fails.  Otherwise it reports one of these laps of the upstream
    answer, with its time, its number and the acronym of its driver, and
    no such lap is faster.  The tyres are those of the first stint of
    that driver, in the order of the stint answer, whose lap range
    covers the lap: its compound ("Unknown" without one) and the age
    lap - lap_start + 1, which is at least 1; without such a stint, or
    when the stint query fails, the compound is "N/A" and the age 0. *)
Theorem fastest_lap_is_minimum (laps : list Lap.t) (drivers : list Driver.t)
    (detail : N -> list Driver.t) (stints_of : N -> option (list Stint.t))
    (driver : js_scalar) :
  if scalar_truthy driver
  then
    match resolveDriverNumber drivers driver with
    | Some n =>
        if N.eqb n 0
        then fastest_lap_summary laps drivers detail stints_of driver
             = Err ("Driver '" +:+ scalar_toString driver +:+ "' not found.")
        else fastest_outcome laps detail stints_of (Some n)
               (fastest_lap_summary laps drivers detail stints_of driver)
    | None =>
        fastest_lap_summary laps drivers detail stints_of driver
        = Err ("Driver '" +:+ scalar_toString driver +:+ "' not found.")
    end
  else fastest_outcome laps detail stints_of None
         (fastest_lap_summary laps drivers detail stints_of driver).
Proof.
  unfold fastest_lap_summary, fastest_candidates.
  destruct (scalar_truthy driver).
  - destruct (resolveDriverNumber drivers driver) as [n|]; [|reflexivity].
    destruct (N.eqb n 0); [reflexivity|].
    apply fastest_outcome_of. intros l. rewrite !filter_In. unfold asked_for.
    rewrite N.eqb_eq. tauto.
  - apply fastest_outcome_of. intros l. rewrite filter_In. unfold asked_for. tauto.
Qed.

(** ** Gap to the leader *)

Lemma running_totals_laps (tot : Z) (times : list (Z * Z)) :
  List.map fst (running_totals tot times) = List.map fst times.
Proof.
  revert tot. induction times as [|[lap time] rest IH]; intros tot; simpl;
    [reflexivity|]. now rewrite IH.
Qed.

Lemma gaps_self (l : list (Z * Z)) : gaps l l = List.repeat 0%Z (List.length l).
Proof.
  induction l as [|x r IH]; simpl; [reflexivity|]. rewrite IH. f_equal. lia.
Qed.

Lemma gaps_length (mine ref : list (Z * Z)) :
  List.length (gaps mine ref) = Nat.min (List.length mine) (List.length ref).
Proof.
  revert ref. induction mine as [|x r IH]; intros ref; [reflexivity|].
  destruct ref as [|y ref]; simpl; [reflexivity|]. now rewrite IH.
Qed.

Lemma ascending_map {A : Type} (key : A -> Z) (l : list A) :
  ascending key l -> ascending (fun x => x) (List.map key l).
Proof.
  unfold ascending. induction 1 as [|x r Hr IH Hx]; simpl; constructor.
  - exact IH.
  - rewrite List.Forall_forall in *. intros y Hy.
    apply in_map_iff in Hy as (z & <- & Hz). now apply Hx.
Qed.

Lemma collect_length {A B : Type} (f : A -> option B) (l : list A) :
  List.length (collect f l) <= List.length l.
Proof.
  induction l as [|x r IH]; simpl; [lia|]. destruct (f x); simpl; lia.
Qed.

Lemma sort_by_length {A : Type} (key : A -> Z) (l : list A) :
  List.length (sort_by key l) = List.length l.
Proof. apply Permutation_length, sort_by_perm. Qed.

Lemma dTimes_length (laps : list Lap.t) (d : N) :
  List.length (sort_by fst (dTimes laps d)) = lap_count laps d.
Proof. rewrite sort_by_length. unfold dTimes, lap_count. apply length_map. Qed.

Lemma dTimes_laps (laps : list Lap.t) (d : N) :
  List.map fst (dTimes laps d)
  = List.map Lap.lap_number (List.filter (fun l => N.eqb (Lap.driver_number l) d) laps).
Proof. unfold dTimes. rewrite List.map_map. reflexivity. Qed.

Lemma running_totals_length (tot : Z) (times : list (Z * Z)) :
  List.length (running_totals tot times) = List.length times.
Proof.
  revert tot. induction times as [|[lap time] rest IH]; intros tot; simpl;
    [reflexivity|]. now rewrite IH.
Qed.

Lemma gaps_running_totals (a b : Z) (xs ys : list (Z * Z)) :
  gaps (running_totals a xs) (running_totals b ys)
  = List.map
      (fun i => ((a + sum_Z (List.map snd (List.firstn (S i) xs)))
                 - (b + sum_Z (List.map snd (List.firstn (S i) ys))))%Z)
      (List.seq 0 (Nat.min (List.length xs) (List.length ys))).
Proof.
  revert a b ys. induction xs as [|[lx tx] xs IH]; intros a b ys; [reflexivity|].
  destruct ys as [|[ly ty] ys]; [reflexivity|].
  cbn [running_totals gaps List.length Nat.min List.seq List.map snd].
  f_equal.
  - unfold sum_Z. cbn. rewrite !firstn_O. cbn. lia.
  - rewrite IH, <- List.seq_shift, List.map_map.
    apply List.map_ext. intros i. unfold sum_Z.
    cbn [List.firstn List.map List.fold_right snd]. lia.
Qed.

Lemma has_lap_cumulative (laps : list Lap.t) (d : N) :
  has_lap laps d = negb (match cumulative laps d with [] => true | _ => false end).
Proof.
  assert (Hlen : List.length (cumulative laps d) = lap_count laps d).
  { unfold cumulative. now rewrite running_totals_length, dTimes_length. }
  unfold has_lap, lap_count in *.
  destruct (cumulative laps d) as [|c r]; cbn [negb List.length] in *.
  - induction laps as [|l laps IH]; [reflexivity|]. cbn in *.
    destruct (N.eqb (Lap.driver_number l) d); [discriminate|]. now apply IH.
  - revert Hlen. generalize (List.length r) as n. intros n Hlen.
    induction laps as [|l laps IH]; [discriminate|]. cbn in *.
    destruct (N.eqb (Lap.driver_number l) d); [reflexivity|]. now apply IH.
Qed.

Lemma series_of_gaps (laps : list Lap.t) (drivers : list Driver.t) (ref d : N) :
  {| GapDataset.label := dMap_label drivers d;
     GapDataset.data := gaps (cumulative laps d) (cumulative laps ref) |}
  = series_of laps drivers ref d.
Proof.
  unfold series_of, cumulative. rewrite gaps_running_totals, !dTimes_length.
  f_equal.
Qed.

(** The gap chart compares the first five drivers of the roster with the
    first one, the reference.  Its labels are the lap numbers of the
    laps of the reference, in ascending order.  There is one series for
    each of the five drivers that has a lap, in the order of the roster;
    it carries the acronym of the driver, and its value number [i] is
    the total time of the driver over the first [i] laps minus that of
    the reference, for as many laps as both have.  The first series is
    that of the reference and is zero on every lap.  The chart fails
    exactly when the roster is empty or the reference has no lap. *)
Theorem gap_chart_reference (laps : list Lap.t) (drivers : list Driver.t) :
  match gap_chart laps drivers with
  | Ok (labels, datasets) =>
      exists reference rest,
        drivers = reference :: rest
        /\ has_lap laps (Driver.driver_number reference) = true
        /\ ascending (fun lap => lap) labels
        /\ Permutation labels
             (List.map Lap.lap_number
                (List.filter
                   (fun l => N.eqb (Lap.driver_number l) (Driver.driver_number reference))
                   laps))
        /\ datasets
           = List.map
               (fun d => series_of laps drivers (Driver.driver_number reference)
                           (Driver.driver_number d))
               (List.filter (fun d => has_lap laps (Driver.driver_number d))
                  (List.firstn 5 drivers))
        /\ (exists others,
              datasets
              = {| GapDataset.label :=
                     dMap_label drivers (Driver.driver_number reference);
                   GapDataset.data := List.repeat 0%Z (List.length labels) |}
                :: others)
        /\ Forall (fun series =>
                     List.length (GapDataset.data series) <= List.length labels)
             datasets
        /\ List.length datasets <= 5
  | Err _ =>
      match drivers with
      | [] => True
      | reference :: _ => has_lap laps (Driver.driver_number reference) = false
      end
  end.
Proof.
  unfold gap_chart. destruct drivers as [|d0 rest]; [exact I|].
  set (drivers := d0 :: rest).
  assert (Hcollect :
    collect
      (fun dNum =>
         match cumulative laps dNum with
         | [] => None
         | c :: r =>
             Some {| GapDataset.label := dMap_label drivers dNum;
                     GapDataset.data :=
                       gaps (c :: r) (cumulative laps (Driver.driver_number d0)) |}
         end)
      (List.map Driver.driver_number (List.firstn 5 drivers))
    = List.map
        (fun d => series_of laps drivers (Driver.driver_number d0)
                    (Driver.driver_number d))
        (List.filter (fun d => has_lap laps (Driver.driver_number d))
           (List.firstn 5 drivers))).
  { generalize (List.firstn 5 drivers) as l.
    induction l as [|d l IH]; [reflexivity|]. cbn [List.map collect List.filter].
    rewrite has_lap_cumulative.
    destruct (cumulative laps (Driver.driver_number d)) as [|c r] eqn:Ec; cbn [negb].
    - exact IH.
    - cbn [List.map]. rewrite <- series_of_gaps, Ec, IH. reflexivity. }
  pose proof (has_lap_cumulative laps (Driver.driver_number d0)) as Hhas.
  change (List.map Driver.driver_number (List.firstn 5 drivers))
    with (Driver.driver_number d0
            :: List.map Driver.driver_number (List.firstn 4 rest)) in Hcollect |- *.
  cbv iota.
  destruct (cumulative laps (Driver.driver_number d0)) as [|r0 reference] eqn:Er.
  { exact Hhas. }
  cbn [negb] in Hhas.
  assert (Hlabels : List.map fst (r0 :: reference)
                    = List.map fst (sort_by fst (dTimes laps (Driver.driver_number d0)))).
  { rewrite <- Er. unfold cumulative. apply running_totals_laps. }
  assert (Hlen : List.length (List.map fst (r0 :: reference))
                 = lap_count laps (Driver.driver_number d0)).
  { rewrite Hlabels, length_map. apply dTimes_length. }
  exists d0, rest. split; [reflexivity|]. split; [exact Hhas|].
  split; [rewrite Hlabels; apply ascending_map, sort_by_ascending|].
  split.
  { rewrite Hlabels, <- dTimes_laps. apply Permutation_map, sort_by_perm. }
  split; [exact Hcollect|].
  split.
  { cbn [collect]. rewrite Er. eexists. f_equal. f_equal.
    rewrite gaps_self. f_equal. now rewrite length_map. }
  split.
  - apply List.Forall_forall. intros series Hs.
    apply collect_In in Hs as (dNum & _ & Hd).
    destruct (cumulative laps dNum) as [|m0 mine]; [discriminate|].
    injection Hd as <-. cbn [GapDataset.data gaps List.length].
    rewrite gaps_length, length_map. cbn [List.length]. lia.
  - etransitivity; [apply collect_length|]. cbn [List.length].
    rewrite length_map, length_firstn. lia.
Qed.

(** ** Raw data proxy *)

Lemma firstn_In {A : Type} (n : nat) (l : list A) (x : A) :
  In x (List.firstn n l) -> In x l.
Proof.
  revert l. induction n as [|n IH]; intros l; simpl; [intros []|].
  destruct l as [|y r]; simpl; [intros []|].
  intros [->|H]; [now left|right; now apply IH].
Qed.

Lemma firstn_ascending {A : Type} (key : A -> Z) (n : nat) (l : list A) :
  ascending key l -> ascending key (List.firstn n l).
Proof.
  unfold ascending. revert l. induction n as [|n IH]; intros l Hs; simpl;
    [constructor|].
  destruct l as [|y r]; [constructor|].
  inversion Hs as [|? ? Hr Hy]; subst. constructor; [now apply IH|].
  rewrite List.Forall_forall in *. intros z Hz. apply Hy. now apply firstn_In in Hz.
Qed.

(** For the meetings and the sessions, the proxy answers with the latest
    items first; without a country the answer is cut to the five latest;
    what is answered is a leading part of the month-filtered upstream
    answer sorted by descending start, hence made of upstream items only.
    The answer of any other resource is passed on as it is. *)
Theorem proxy_postprocess_latest_first (resource : string) (monthFilter : js_scalar)
    (country : bool) (data : list Session.t) :
  let out := proxy_postprocess resource monthFilter country data in
  if mem resource ["meetings"; "sessions"]
  then
    ascending (fun item => (- start_ms item)%Z) out
    /\ (exists dropped,
           (out ++ dropped)%list
           = sort_by (fun item => (- start_ms item)%Z)
               (if scalar_truthy monthFilter then filterByMonth data monthFilter
                else data))
    /\ (if country then True else List.length out <= 5)
    /\ forall item, In item out -> In item data
  else out = data.
Proof.
  unfold proxy_postprocess.
  destruct (mem resource ["meetings"; "sessions"]); [|reflexivity].
  set (filtered := if scalar_truthy monthFilter then filterByMonth data monthFilter
                   else data).
  set (sorted := sort_by (fun item : Session.t => (- start_ms item)%Z) filtered).
  assert (Hf : forall item, In item sorted -> In item data).
  { intros item Hi. subst sorted. apply sort_by_In in Hi. subst filtered.
    destruct (scalar_truthy monthFilter); [|exact Hi].
    eapply sublist_In; [|exact Hi]. apply filterByMonth_sublist. }
  destruct (Nat.ltb 5 (List.length sorted) && negb country) eqn:E.
  - apply andb_true_iff in E as [_ Ec]. apply negb_true_iff in Ec. subst country.
    split; [apply firstn_ascending, sort_by_ascending|].
    split; [exists (List.skipn 5 sorted); apply firstn_skipn|].
    split; [rewrite length_firstn; lia|].
    intros item Hi. apply Hf. now apply firstn_In in Hi.
  - split; [apply sort_by_ascending|].
    split; [exists []; apply app_nil_r|].
    split; [|exact Hf].
    destruct country; [exact I|]. rewrite andb_true_r in E.
    apply Nat.ltb_ge in E. exact E.
Qed.

Lemma rename_param_other (q : gmap string string) (alias : string * string) (k : string) :
  k <> fst alias -> k <> snd alias -> rename_param q alias !! k = q !! k.
Proof.
  intros Hb Hg. unfold rename_param.
  destruct (q !! fst alias) as [v|]; [|reflexivity].
  destruct (is_empty v); [reflexivity|].
  rewrite lookup_delete_ne by congruence. now rewrite lookup_insert_ne by congruence.
Qed.

Lemma rename_all_other (aliases : list (string * string)) (q : gmap string string)
    (k : string) :
  ~ In k (List.map fst aliases) -> ~ In k (List.map snd aliases) ->
  List.fold_left rename_param aliases q !! k = q !! k.
Proof.
  revert q. induction aliases as [|a r IH]; intros q Hb Hg; [reflexivity|].
  simpl in *. rewrite IH by tauto. apply rename_param_other; intros ->; tauto.
Qed.

Lemma rename_all_moves (aliases : list (string * string)) (q : gmap string string)
    (alias : string * string) (v : string) :
  NoDup (List.map fst aliases ++ List.map snd aliases) ->
  In alias aliases -> q !! fst alias = Some v -> v <> "" ->
  List.fold_left rename_param aliases q !! snd alias = Some v
  /\ List.fold_left rename_param aliases q !! fst alias = None.
Proof.
  revert q. induction aliases as [|a r IH]; intros q Hnd Hin Hq Hv; [destruct Hin|].
  assert (Hnd' : NoDup (List.map fst r ++ List.map snd r)).
  { simpl in Hnd. apply NoDup_cons in Hnd as [_ Hnd].
    apply NoDup_app in Hnd as (H1 & H2 & H3). apply NoDup_cons in H3 as [_ H3].
    apply NoDup_app. split; [exact H1|]. split; [|exact H3].
    intros x Hx Hx'. apply (H2 x Hx). now right. }
  assert (Ha1 : ~ In (fst a) (List.map fst r) /\ ~ In (fst a) (List.map snd r)
                /\ fst a <> snd a).
  { simpl in Hnd. apply NoDup_cons in Hnd as [Hn _].
    rewrite list_elem_of_In in Hn. rewrite in_app_iff in Hn. simpl in Hn.
    repeat split; [tauto|tauto|]. intros E. apply Hn. right. left. now symmetry. }
  assert (Ha2 : ~ In (snd a) (List.map fst r) /\ ~ In (snd a) (List.map snd r)).
  { simpl in Hnd. apply NoDup_cons in Hnd as [_ Hnd].
    apply NoDup_app in Hnd as (_ & H2 & H3). apply NoDup_cons in H3 as [H3 _].
    rewrite list_elem_of_In in H3. split; [|exact H3].
    intros Hx. apply (H2 (snd a)); [now apply list_elem_of_In|]. now left. }
  destruct Ha1 as (Hb1 & Hb2 & Hbg). destruct Ha2 as (Hg1 & Hg2).
  simpl. destruct Hin as [->|Hin].
  - rewrite !rename_all_other by assumption.
    unfold rename_param. rewrite Hq.
    apply nonempty_iff, negb_true_iff in Hv. rewrite Hv.
    rewrite lookup_delete_eq. rewrite lookup_delete_ne by congruence.
    now rewrite lookup_insert_eq.
  - apply IH; [exact Hnd'|exact Hin| |exact Hv].
    rewrite rename_param_other; [exact Hq| |].
    + intros E. apply Hb1. rewrite <- E. now apply in_map.
    + intros E. apply Hg1. rewrite <- E. now apply in_map.
Qed.

Lemma ALIAS_names_distinct : NoDup (List.map fst ALIAS ++ List.map snd ALIAS).
Proof.
  simpl. repeat (apply NoDup_cons; split;
                 [rewrite list_elem_of_In; simpl; intuition discriminate|]).
  constructor.
Qed.

(** The proxy translates the parameter aliases: a non-empty value given
    under an alias ([circuit_id], [meeting_id], [session_id],
    [driver_id]) is moved to the upstream name and the alias is removed;
    parameters that are neither an alias nor such an upstream name are
    left as they are. *)
Theorem translate_aliases_moves (queryParams : gmap string string)
    (alias : string * string) (v : string)
    (Halias : In alias ALIAS)
    (Hgiven : queryParams !! fst alias = Some v) (Hvalue : v <> "") :
  translate_aliases queryParams !! snd alias = Some v
  /\ translate_aliases queryParams !! fst alias = None
  /\ forall k, ~ In k (List.map fst ALIAS) -> ~ In k (List.map snd ALIAS) ->
       translate_aliases queryParams !! k = queryParams !! k.
Proof.
  unfold translate_aliases.
  destruct (rename_all_moves ALIAS queryParams alias v ALIAS_names_distinct
              Halias Hgiven Hvalue) as [H1 H2].
  split; [exact H1|]. split; [exact H2|].
  intros k Hb Hg. now apply rename_all_other.
Qed.

Lemma translate_aliases_moves_witness :
  In ("driver_id", "driver_number") ALIAS
  /\ ({[ "driver_id" := "44" ]} : gmap string string) !! "driver_id" = Some "44"
  /\ "44" <> ""
  /\ translate_aliases {[ "driver_id" := "44" ]} !! "driver_number" = Some "44"
  /\ translate_aliases {[ "driver_id" := "44" ]} !! "driver_id" = None.
Proof.
  assert (H1 : In ("driver_id", "driver_number") ALIAS) by (simpl; auto).
  assert (H2 : ({[ "driver_id" := "44" ]} : gmap string string) !! "driver_id"
               = Some "44") by apply lookup_singleton_eq.
  assert (H3 : "44" <> "") by discriminate.
  split; [exact H1|]. split; [exact H2|]. split; [exact H3|].
  destruct (translate_aliases_moves {[ "driver_id" := "44" ]}
              ("driver_id", "driver_number") "44" H1 H2 H3) as (Ha & Hb & _).
  split; [exact Ha|exact Hb].
Defined.

(** ** Position changes: the places gained add up to zero *)

Lemma posMap_set_keys (k : N) (v : Z) (m : posMap) (x : N) :
  In x (List.map fst (posMap_set k v m)) -> x = k \/ In x (List.map fst m).
Proof.
  induction m as [|[k0 v0] r IH]; simpl.
  - intros [<-|[]]. now left.
  - destruct (N.eqb k k0) eqn:E; [|destruct (N.ltb k k0)]; simpl.
    + intros [<-|H]; [now left|right; now right].
    + intros [<-|[<-|H]]; [now left|right; now left|right; now right].
    + intros [<-|H]; [right; now left|].
      destruct (IH H) as [->|H']; [now left|right; now right].
Qed.

Lemma posMap_set_sorted (k : N) (v : Z) (m : posMap) :
  StronglySorted N.lt (List.map fst m) ->
  StronglySorted N.lt (List.map fst (posMap_set k v m)).
Proof.
  induction m as [|[k0 v0] r IH]; simpl; intros Hs.
  - repeat constructor.
  - inversion Hs as [|? ? Hr Hk]; subst.
    destruct (N.eqb k k0) eqn:E.
    + apply N.eqb_eq in E as ->. simpl. now constructor.
    + apply N.eqb_neq in E. destruct (N.ltb k k0) eqn:El.
      * apply N.ltb_lt in El. simpl. constructor; [exact Hs|].
        constructor; [exact El|].
        eapply Forall_impl; [exact Hk|]. simpl. intros; lia.
      * apply N.ltb_ge in El. simpl. constructor; [now apply IH|].
        apply List.Forall_forall. intros x Hx.
        apply posMap_set_keys in Hx as [->|Hx]; [lia|].
        rewrite List.Forall_forall in Hk. now apply Hk.
Qed.

Lemma assign_positions_sorted (entries : list (N * Z)) (index : Z) (m : posMap) :
  StronglySorted N.lt (List.map fst m) ->
  StronglySorted N.lt (List.map fst (assign_positions index entries m)).
Proof.
  revert index m. induction entries as [|e r IH]; intros index m Hs; simpl;
    [exact Hs|]. apply IH. now apply posMap_set_sorted.
Qed.

Lemma sorted_lt_NoDup (l : list N) : StronglySorted N.lt l -> List.NoDup l.
Proof.
  induction 1 as [|x r Hr IH Hx]; constructor; [|exact IH].
  intros Hin. rewrite List.Forall_forall in Hx. specialize (Hx x Hin). lia.
Qed.

Lemma Object_keys_distinct (allLaps : list Lap.t) (lapNum : Z) :
  List.NoDup (Object_keys (getLeaderboard allLaps lapNum)).
Proof.
  apply sorted_lt_NoDup. unfold Object_keys, getLeaderboard.
  apply assign_positions_sorted. constructor.
Qed.

Lemma rank_from_absent (order : list N) (index : Z) (d : N) :
  ~ In d order -> rank_from index order d = None.
Proof.
  revert index. induction order as [|a r IH]; intros index Hn; simpl; [reflexivity|].
  simpl in Hn. rewrite IH by tauto.
  destruct (N.eqb d a) eqn:E; [|reflexivity].
  apply N.eqb_eq in E. subst. tauto.
Qed.

Lemma position_at_In (allLaps : list Lap.t) (lapNum : Z) (d : N) :
  In d (running_order allLaps lapNum) <-> position_at allLaps lapNum d <> None.
Proof.
  unfold position_at. split.
  - intros H. destruct (rank_from_present _ 0 d H) as [p ->]. discriminate.
  - intros H. destruct (in_dec N.eq_dec d (running_order allLaps lapNum)) as [Hi|Hn];
      [exact Hi|]. now rewrite rank_from_absent in H.
Qed.

Lemma Object_keys_order (allLaps : list Lap.t) (lapNum : Z) :
  List.NoDup (running_order allLaps lapNum) ->
  Permutation (Object_keys (getLeaderboard allLaps lapNum))
    (running_order allLaps lapNum).
Proof.
  intros Hnd. apply Permutation.NoDup_Permutation; [apply Object_keys_distinct|exact Hnd|].
  intros d. rewrite Object_keys_In, getLeaderboard_get. symmetry.
  apply position_at_In.
Qed.

Lemma sum_over_perm (f : N -> Z) (l1 l2 : list N) :
  Permutation l1 l2 -> sum_over f l1 = sum_over f l2.
Proof.
  unfold sum_over.
  induction 1 as [|x l1 l2 _ IH|x y l|l1 l2 l3 _ IH1 _ IH2]; simpl; lia.
Qed.

Lemma sum_over_ext (f g : N -> Z) (l : list N) :
  (forall d, In d l -> f d = g d) -> sum_over f l = sum_over g l.
Proof.
  unfold sum_over. induction l as [|x r IH]; simpl; intros H; [reflexivity|].
  rewrite (H x) by now left. rewrite IH; [reflexivity|]. intros d Hd. apply H. now right.
Qed.

Lemma sum_over_places (order : list N) (index : Z) :
  List.NoDup order ->
  sum_over (place order index) order = ranks_sum index (List.length order).
Proof.
  revert index. induction order as [|a r IH]; intros index Hnd; [reflexivity|].
  inversion Hnd as [|? ? Ha Hr]; subst.
  change (sum_over (place (a :: r) index) (a :: r))
    with (place (a :: r) index a + sum_over (place (a :: r) index) r)%Z.
  cbn [List.length ranks_sum]. rewrite <- (IH (index + 1)%Z Hr).
  assert (E1 : place (a :: r) index a = (index + 1)%Z).
  { unfold place. simpl. rewrite (rank_from_absent r (index + 1) a Ha).
    now rewrite N.eqb_refl. }
  rewrite E1. f_equal. apply sum_over_ext. intros d Hd. unfold place. simpl.
  now destruct (rank_from_present r (index + 1) d Hd) as [p ->].
Qed.

Lemma total_gained_collect (drivers : list Driver.t) (allLaps : list Lap.t)
    (lapNum : Z) (keys : list N) :
  (forall d, In d keys ->
     In d (running_order allLaps (lapNum - 1)) /\ In d (running_order allLaps lapNum)) ->
  total_gained
    (collect (change_of drivers (getLeaderboard allLaps (lapNum - 1))
                (getLeaderboard allLaps lapNum)) keys)
  = (sum_over (place (running_order allLaps (lapNum - 1)) 0) keys
     - sum_over (place (running_order allLaps lapNum) 0) keys)%Z
  /\ List.length
       (collect (change_of drivers (getLeaderboard allLaps (lapNum - 1))
                   (getLeaderboard allLaps lapNum)) keys)
     = List.length keys.
Proof.
  induction keys as [|d r IH]; intros H; [now split|].
  destruct IH as [IH1 IH2]; [intros x Hx; apply H; now right|].
  destruct (H d) as [Hp Hc]; [now left|].
  apply position_at_In in Hp, Hc.
  destruct (position_at allLaps (lapNum - 1) d) as [p|] eqn:Ep; [|congruence].
  destruct (position_at allLaps lapNum d) as [q|] eqn:Eq; [|congruence].
  destruct (change_of_present drivers allLaps lapNum d p q Ep Eq) as (c & Hc1 & _ & Hg).
  simpl. rewrite Hc1. unfold total_gained in *. simpl. rewrite IH1, IH2, Hg.
  unfold sum_over. simpl. unfold place. unfold position_at in Ep, Eq.
  rewrite Ep, Eq. split; [lia|reflexivity].
Qed.

Lemma total_gained_perm (l1 l2 : list Change.t) :
  Permutation l1 l2 -> total_gained l1 = total_gained l2.
Proof.
  unfold total_gained.
  induction 1 as [|x l1 l2 _ IH|x y l|l1 l2 l3 _ IH1 _ IH2]; simpl; lia.
Qed.

(** When the same drivers, each once, have a timed lap on the lap and on
    the lap before, the handler (without a driver filter) makes one entry
    per driver, and the places gained add up to zero: what one driver
    gains, others lose. *)
Theorem position_changes_zero_sum (lapNum : Z) (allLaps : list Lap.t)
    (drivers : list Driver.t) (results : list SessionResult.t)
    (Hlap : (1 < lapNum)%Z)
    (Hdistinct : List.NoDup (running_order allLaps lapNum))
    (Hsame : Permutation (running_order allLaps (lapNum - 1))
               (running_order allLaps lapNum)) :
  exists changes,
    position_change_summary (Some lapNum) JNull allLaps drivers results
    = Ok (LapChanges lapNum changes)
    /\ List.length changes = List.length (running_order allLaps lapNum)
    /\ total_gained changes = 0%Z.
Proof.
  unfold position_change_summary. cbn [Z_truthy scalar_truthy].
  replace (Z.eqb lapNum 0) with false by (symmetry; apply Z.eqb_neq; lia).
  replace (Z.leb lapNum 1) with false by (symmetry; apply Z.leb_gt; lia).
  cbn [negb]. eexists. split; [reflexivity|].
  set (keys := Object_keys (getLeaderboard allLaps lapNum)).
  assert (Hk : Permutation keys (running_order allLaps lapNum))
    by now apply Object_keys_order.
  assert (Hprev : List.NoDup (running_order allLaps (lapNum - 1))).
  { eapply Permutation_NoDup; [symmetry; exact Hsame|exact Hdistinct]. }
  destruct (total_gained_collect drivers allLaps lapNum keys) as [Hsum Hlen].
  { intros d Hd. assert (Hc : In d (running_order allLaps lapNum))
      by (eapply Permutation_in; [exact Hk|exact Hd]).
    split; [|exact Hc]. eapply Permutation_in; [symmetry; exact Hsame|exact Hc]. }
  pose proof (sort_by_perm (fun c => (- Change.positions_gained c)%Z)
                (lap_changes drivers allLaps lapNum)) as Hp.
  split.
  - rewrite (Permutation_length Hp). unfold lap_changes. fold keys.
    rewrite Hlen. now apply Permutation_length.
  - rewrite (total_gained_perm _ _ Hp). unfold lap_changes. fold keys. rewrite Hsum.
    rewrite (sum_over_perm _ keys (running_order allLaps (lapNum - 1)))
      by (etransitivity; [exact Hk|symmetry; exact Hsame]).
    rewrite (sum_over_perm _ keys (running_order allLaps lapNum)) by exact Hk.
    rewrite !sum_over_places by assumption.
    rewrite (Permutation_length Hsame). lia.
Qed.

Lemma position_changes_zero_sum_witness :
  (1 < 3)%Z
  /\ List.NoDup (running_order sample_laps 3)
  /\ Permutation (running_order sample_laps 2) (running_order sample_laps 3)
  /\ exists changes,
       position_change_summary (Some 3%Z) JNull sample_laps [ver; str] []
       = Ok (LapChanges 3 changes)
       /\ List.length changes = 3
       /\ total_gained changes = 0%Z.
Proof.
  assert (Hd : List.NoDup (running_order sample_laps 3)).
  { change (running_order sample_laps 3) with [18; 1; 44]%N.
    repeat constructor; simpl; intuition discriminate. }
  assert (Hs : Permutation (running_order sample_laps 2) (running_order sample_laps 3)).
  { change (running_order sample_laps 2) with [1; 18; 44]%N.
    change (running_order sample_laps 3) with [18; 1; 44]%N. apply perm_swap. }
  split; [reflexivity|]. split; [exact Hd|]. split; [exact Hs|].
  exact (position_changes_zero_sum 3 sample_laps [ver; str] [] eq_refl Hd Hs).
Defined.

(** ** Race control: the car number pattern, both ways *)

Lemma search_from_complete (lit pre post : string) (prev : option ascii) :
  word_boundary (char_before prev pre) (head_char (lit +:+ post)) = true ->
  word_boundary (char_before (char_before prev pre) lit) (head_char post) = true ->
  search_from prev lit (pre +:+ lit +:+ post) = true.
Proof.
  revert prev. induction pre as [|c pre' IH]; intros prev H1 H2.
  - change ("" +:+ lit +:+ post) with (lit +:+ post).
    assert (Hm : match_here prev lit (lit +:+ post) = true).
    { unfold match_here. rewrite strip_prefix_here.
      change (char_before prev "") with prev in H1, H2.
      unfold char_before in H2. rewrite H1. exact H2. }
    destruct (lit +:+ post); simpl; rewrite Hm; reflexivity.
  - assert (Eb : char_before prev (String c pre') = char_before (Some c) pre').
    { unfold char_before. rewrite last_char_cons. now destruct (last_char pre'). }
    rewrite Eb in H1, H2.
    change (String c pre' +:+ lit +:+ post) with (String c (pre' +:+ lit +:+ post)).
    simpl. rewrite (IH (Some c) H1 H2). apply orb_true_r.
Qed.

(** The car number pattern finds exactly the whole-word occurrences: a
    text matches for the number [n] if and only if it contains "car n"
    with no letter, digit or underscore right before "car" and none right
    after the number. *)
Theorem car_regex_exactly_whole_words (msgLower : string) (driverNum : N) :
  car_regex_matches msgLower driverNum = true
  <-> exists pre post,
        msgLower = pre +:+ "car " +:+ of_N driverNum +:+ post
        /\ word_char (last_char pre) = false
        /\ word_char (head_char post) = false.
Proof.
  split; [apply car_regex_whole_word|].
  intros (pre & post & -> & Hpre & Hpost). unfold car_regex_matches.
  apply (search_from_complete ("car " +:+ of_N driverNum) pre post None).
  - change (head_char (("car " +:+ of_N driverNum) +:+ post)) with (Some "c"%char).
    unfold word_boundary, char_before.
    destruct (last_char pre); simpl in *; [now rewrite Hpre|reflexivity].
  - pose proof (car_pattern_ends_in_word_char driverNum) as Hw.
    unfold word_boundary, char_before.
    destruct (last_char ("car " +:+ of_N driverNum)); [|discriminate].
    simpl in Hw. simpl. now rewrite Hw, Hpost.
Qed.

(** ** Session resolver and month filter together *)

Lemma filterByMonth_recognized (data : list Session.t) (month : js_scalar) (k : Z) :
  scalar_truthy month = true ->
  own_get monthMap (month_key month) = Some k ->
  filterByMonth data month = List.filter (in_month k) data.
Proof.
  intros Ht Hk. unfold filterByMonth, obj_get. now rewrite Ht, Hk.
Qed.

(** With a month that the month table knows, a key returned by
    [getSessionKey] is the key of a session of the upstream answer that
    starts in that month, and no session of the answer that starts in
    that month starts later. *)
Theorem getSessionKey_within_month (api : Upstream) (currentYear : Z)
    (cache : meetings_cache) (year : N) (location : string)
    (sessionType : option string) (month : js_scalar) (k : Z)
    (Hgiven : scalar_truthy month = true)
    (Hmonth : own_get monthMap (month_key month) = Some k) :
  let country :=
    match fst (resolveCountryFromHistory (meetings_of api) currentYear cache
                 (Some location)) with
    | Some c => c
    | None => location
    end in
  match fst (getSessionKey api currentYear cache year location sessionType month) with
  | Ok key =>
      exists sessions s,
        sessions_of api year country (mapSessionType sessionType) = Data sessions
        /\ In s sessions
        /\ Session.session_key s = key
        /\ in_month k s = true
        /\ forall s', In s' sessions -> in_month k s' = true ->
             (start_ms s' <= start_ms s)%Z
  | Err _ => True
  end.
Proof.
  intros country. unfold getSessionKey.
  destruct (resolveCountryFromHistory _ _ _ _) as [resolved cache'] eqn:Er.
  simpl in country. fold country. unfold locate_session.
  destruct (sessions_of api year country (mapSessionType sessionType))
    as [text|sessions] eqn:Es; [exact I|].
  destruct (Nat.eqb (List.length sessions) 0); [exact I|].
  rewrite Hgiven, (filterByMonth_recognized sessions month k Hgiven Hmonth).
  cbn [andb].
  destruct (List.filter (in_month k) sessions) as [|c0 crest] eqn:Ef; [exact I|].
  cbn [List.length Nat.eqb].
  destruct (latest_of_sorted (c0 :: crest)) as (s & Hs & s1 & Hin & Hkey & Hmax);
    [easy|].
  rewrite Hs. simpl. rewrite <- Ef in Hin, Hmax.
  apply filter_In in Hin as [Hin Hm].
  exists sessions, s1. repeat split; try assumption.
  intros s' Hs' Hm'. apply Hmax. apply filter_In. now split.
Qed.

Lemma getSessionKey_within_month_witness :
  scalar_truthy (JStr "Sep") = true
  /\ own_get monthMap (month_key (JStr "Sep")) = Some 8%Z
  /\ match fst (getSessionKey italian_api 2025 ∅ 2024 "Monza" (Some "R") (JStr "Sep")) with
     | Ok key =>
         exists sessions s,
           sessions_of italian_api 2024 "Italy" "Race" = Data sessions
           /\ In s sessions
           /\ Session.session_key s = key
           /\ in_month 8 s = true
           /\ forall s', In s' sessions -> in_month 8 s' = true ->
                (start_ms s' <= start_ms s)%Z
     | Err _ => True
     end.
Proof.
  split; [reflexivity|]. split; [reflexivity|].
  exact (getSessionKey_within_month italian_api 2025 ∅ 2024 "Monza" (Some "R")
           (JStr "Sep") 8%Z eq_refl eq_refl).
Defined.
